(** * pysudoku: a shallow embedding of [sudoku.py] and its properties

    The development follows the module: the coordinate mapper
    [get_idx], the copying writer [set_value], the legality check
    [check_legal], the masker [hide_portion_of_board], the generator
    [makeBoard], the renderer [displayBoard] and the session
    ([load_from_file], [game]).

    Modelling choices.
    - Python integers are [Z].  The board is a numpy array of float64
      that starts as [np.zeros] and is written only with integers, so a
      cell is the integer it denotes; the conversion of the integer
      written, which rounds above 2^53 and overflows beyond the float
      range, is [float64_of_int].  A float argument is a [float64]:
      a finite [mant * 2^expo], an infinity or a NaN.
    - A board is a numpy array of shape (3, 3, 3, 3): four nested
      three-element arrays [arr3], indexed as
      [board[cellRows, cell, innerRow, elem]].
    - Exceptions are the [Raise] results of an error monad.
    - The global numpy random generator is an explicit stream of raw
      naturals [rng : nat -> nat]; [np.random.choice] and
      [np.random.randint] reduce a raw draw modulo the size of their
      support. *)

From Stdlib Require Import ZArith QArith Qround Lia Ascii String.
From stdpp Require Import base tactics option list numbers gmap strings pretty.

Local Open Scope Z_scope.

(** ** Exceptions and the error monad *)

Inductive exn : Type :=
  | AssertionError      (* a failed [assert] *)
  | IndexError          (* numpy index outside the axis *)
  | ValueError          (* [list.remove] of an absent value, bad numpy argument *)
  | UnboundLocalError   (* a local read before any branch assigned it *)
  | OverflowError       (* a number too large for a float or an integer *)
  | MemoryError.        (* numpy could not allocate an array *)

Inductive result (A : Type) : Type :=
  | Ok (a : A)
  | Raise (e : exn).
Arguments Ok {A} a.
Arguments Raise {A} e.

#[global] Instance exn_eq_dec : EqDecision exn.
Proof. solve_decision. Defined.
#[global] Instance result_eq_dec `{EqDecision A} : EqDecision (result A).
Proof. solve_decision. Defined.

#[global] Instance result_ret : MRet result := fun _ a => Ok a.
#[global] Instance result_bind : MBind result := fun _ _ f m =>
  match m with
  | Ok a => f a
  | Raise e => Raise e
  end.

Definition raises {A} (m : result A) : Prop := exists e, m = Raise e.
Definition returns {A} (m : result A) : Prop := exists a, m = Ok a.

(** ** The board: a numpy array of shape (3, 3, 3, 3) *)

(** The legal positions along one axis, [Literal[0, 1, 2]] in the source. *)
Inductive idx3 : Type := I0 | I1 | I2.

#[global] Instance idx3_eq_dec : EqDecision idx3.
Proof. solve_decision. Defined.

Definition all3 : list idx3 := [I0; I1; I2].

Definition idx3_to_Z (i : idx3) : Z :=
  match i with I0 => 0 | I1 => 1 | I2 => 2 end.

Record arr3 (A : Type) : Type := Arr3 { at0 : A; at1 : A; at2 : A }.
Arguments Arr3 {A} _ _ _.
Arguments at0 {A} _.
Arguments at1 {A} _.
Arguments at2 {A} _.

#[global] Instance arr3_eq_dec `{EqDecision A} : EqDecision (arr3 A).
Proof. solve_decision. Defined.

Definition get3 {A} (a : arr3 A) (i : idx3) : A :=
  match i with I0 => at0 a | I1 => at1 a | I2 => at2 a end.

Definition set3 {A} (a : arr3 A) (i : idx3) (x : A) : arr3 A :=
  match i with
  | I0 => Arr3 x (at1 a) (at2 a)
  | I1 => Arr3 (at0 a) x (at2 a)
  | I2 => Arr3 (at0 a) (at1 a) x
  end.

Definition fill3 {A} (x : A) : arr3 A := Arr3 x x x.

Definition ndarray : Type := arr3 (arr3 (arr3 (arr3 Z))).

(** [np.zeros((3, 3, 3, 3))] *)
Definition zeros : ndarray := fill3 (fill3 (fill3 (fill3 0))).

(** numpy resolves an integer index along an axis of length 3: [-3..-1]
    count from the end, anything outside [-3..2] is an [IndexError]. *)
Definition axis_index (i : Z) : result idx3 :=
  let j := if i <? 0 then i + 3 else i in
  if j =? 0 then Ok I0
  else if j =? 1 then Ok I1
  else if j =? 2 then Ok I2
  else Raise IndexError.

(** A fully resolved index into the board. *)
Definition pos4 : Type := idx3 * idx3 * idx3 * idx3.

Definition resolve (ix : Z * Z * Z * Z) : result pos4 :=
  let '(a, b, c, d) := ix in
  i ← axis_index a; j ← axis_index b; k ← axis_index c; l ← axis_index d;
  Ok (i, j, k, l).

Definition item (board : ndarray) (p : pos4) : Z :=
  let '(i, j, k, l) := p in get3 (get3 (get3 (get3 board i) j) k) l.

Definition store (board : ndarray) (p : pos4) (value : Z) : ndarray :=
  let '(i, j, k, l) := p in
  let b1 := get3 board i in
  let b2 := get3 b1 j in
  let b3 := get3 b2 k in
  set3 board i (set3 b1 j (set3 b2 k (set3 b3 l value))).

(** ** float64 *)

(** [a >= 0] divided by [2^shift] and rounded to the nearest integer,
    ties to the even one. *)
Definition round_half_even (a shift : Z) : Z :=
  let q := a / 2 ^ shift in
  let r := a mod 2 ^ shift in
  if 2 * r <? 2 ^ shift then q
  else if 2 ^ shift <? 2 * r then q + 1
  else if Z.even q then q else q + 1.

(** A float64: the finite [mant * 2^expo], an infinity (the sign plays
    no part in the module) or a NaN. *)
Inductive float64 : Type :=
  | Finite (mant expo : Z)
  | Infinity
  | NaN.

(** The float64 nearest to the real [mant * 2^expo]: 53 significant
    bits, no exponent below -1074, ties to even, infinity from 2^1024
    on. *)
Definition float64_round (mant expo : Z) : float64 :=
  let a := Z.abs mant in
  let shift := Z.max 0 (Z.max (Z.log2 a - 52) (- 1074 - expo)) in
  let k := round_half_even a shift in
  if k =? 0 then Finite 0 0
  else if 1024 <=? Z.log2 k + (expo + shift) then Infinity
  else Finite (Z.sgn mant * k) (expo + shift).

(** The float64 product: the exact product, rounded. *)
Definition float64_mul (x y : float64) : float64 :=
  match x, y with
  | Finite m1 e1, Finite m2 e2 => float64_round (m1 * m2) (e1 + e2)
  | NaN, _ | _, NaN => NaN
  | Infinity, Finite m _ | Finite m _, Infinity =>
      if m =? 0 then NaN else Infinity
  | Infinity, Infinity => Infinity
  end.

(** A Python integer stored into a float64: rounded to 53 bits, and
    [OverflowError] when the result is beyond the float range.  The
    result is again an integer. *)
Definition float64_of_int (value : Z) : result Z :=
  match float64_round value 0 with
  | Finite mant expo => Ok (mant * 2 ^ expo)
  | _ => Raise OverflowError
  end.

(** [int(x)] of a float: truncation toward zero. *)
Definition py_int (x : float64) : result Z :=
  match x with
  | Finite mant expo =>
      Ok (if 0 <=? expo then mant * 2 ^ expo else Z.quot mant (2 ^ (- expo)))
  | Infinity => Raise OverflowError
  | NaN => Raise ValueError
  end.

(** [board[ix]] and [board[ix] = value] for a 4-tuple [ix] of integers;
    the assignment converts the integer to the float64 of the cell. *)
Definition getitem (board : ndarray) (ix : Z * Z * Z * Z) : result Z :=
  p ← resolve ix; Ok (item board p).

Definition setitem (board : ndarray) (ix : Z * Z * Z * Z) (value : Z)
  : result ndarray :=
  p ← resolve ix; v ← float64_of_int value; Ok (store board p v).

(** Row-major enumeration of two free axes, as [.flatten()] lists a
    two-dimensional slice. *)
Definition grid3 : list (idx3 * idx3) :=
  a ← all3; b ← all3; [(a, b)].

Definition flatten2 (f : idx3 -> idx3 -> Z) : list Z :=
  (fun ab => f ab.1 ab.2) <$> grid3.

(** ** get_idx *)

Definition get_idx (row_idx col_idx : Z) : result (Z * Z * Z * Z) :=
  if negb ((0 <=? row_idx) && (row_idx <=? 8)
           && (0 <=? col_idx) && (col_idx <=? 8))
  then Raise AssertionError
  else
    '(innerRow, cellRows) ←
      (if (0 <=? row_idx) && (row_idx <=? 2) then Ok (row_idx, 0)
       else if (3 <=? row_idx) && (row_idx <=? 5) then Ok (row_idx - 3, 1)
       else if (6 <=? row_idx) && (row_idx <=? 8) then Ok (row_idx - 6, 2)
       else Raise UnboundLocalError);
    '(elem, cell) ←
      (if (0 <=? col_idx) && (col_idx <=? 2) then Ok (col_idx, 0)
       else if (3 <=? col_idx) && (col_idx <=? 5) then Ok (col_idx - 3, 1)
       else if (6 <=? col_idx) && (col_idx <=? 8) then Ok (col_idx - 6, 2)
       else Raise UnboundLocalError);
    Ok (cellRows, cell, innerRow, elem).

(** Modelled from the spec: the inverse mapper [to_flat] is described by
    the specification only; [sudoku.py] has no such function.  Block
    components outside 0..2 are an invalid coordinate, and the flat
    coordinate undoes [block = row // 3], [inner = row % 3]. *)
Definition to_flat (ix : Z * Z * Z * Z) : result (Z * Z) :=
  let '(block_row, block_col, inner_row, inner_col) := ix in
  if negb ((0 <=? block_row) && (block_row <=? 2)
           && (0 <=? block_col) && (block_col <=? 2)
           && (0 <=? inner_row) && (inner_row <=? 2)
           && (0 <=? inner_col) && (inner_col <=? 2))
  then Raise AssertionError
  else Ok (3 * block_row + inner_row, 3 * block_col + inner_col).

(** [board[get_idx(row, col)]]: how the module reads one cell. *)
Definition get_cell (row col : Z) (board : ndarray) : result Z :=
  ix ← get_idx row col; getitem board ix.

(** ** set_value *)

(** On values: [board.copy()] is the board itself, and the assignment
    into the copy yields the updated value. *)
Definition set_value (row col : Z) (board : ndarray) (value : Z)
  : result ndarray :=
  let out_board := board in
  ix ← get_idx row col;
  setitem out_board ix value.

(** On the heap: boards are numpy arrays in a store and variables hold
    references.  [board.copy()] allocates a fresh array, the assignment
    mutates that array in place.  A reference that names no array cannot
    arise in Python; the model answers it with an error. *)
Module Heap.

Abbreviation ref := positive.

Definition alloc (h : gmap positive ndarray) (b : ndarray)
  : ref * gmap positive ndarray :=
  let r := fresh (dom h) in (r, <[r := b]> h).

Definition copy (board : ref) (h : gmap positive ndarray)
  : result (ref * gmap positive ndarray) :=
  match h !! board with
  | Some b => Ok (alloc h b)
  | None => Raise ValueError
  end.

Definition assign (board : ref) (ix : Z * Z * Z * Z) (value : Z)
    (h : gmap positive ndarray) : result (gmap positive ndarray) :=
  match h !! board with
  | Some b => b' ← setitem b ix value; Ok (<[board := b']> h)
  | None => Raise ValueError
  end.

Definition set_value (row col : Z) (board : ref) (value : Z)
    (h : gmap positive ndarray) : result (ref * gmap positive ndarray) :=
  '(out_board, h1) ← copy board h;
  ix ← get_idx row col;
  h2 ← assign out_board ix value h1;
  Ok (out_board, h2).

End Heap.

(** ** check_legal *)

(** [np.count_nonzero(area == val)] *)
Definition count_eq (val : Z) (area : list Z) : Z :=
  Z.of_nat (length (filter (fun x => x = val) area)).

(** The three slices the check inspects:
    [board[cellRows, cell, :, :]], [board[cellRows, :, innerRow, :]] and
    [board[:, cell, :, elem]], each flattened. *)
Definition block_slice (board : ndarray) (cellRows cell : idx3) : list Z :=
  flatten2 (fun k l => item board (cellRows, cell, k, l)).
Definition row_slice (board : ndarray) (cellRows innerRow : idx3) : list Z :=
  flatten2 (fun j l => item board (cellRows, j, innerRow, l)).
Definition col_slice (board : ndarray) (cell elem : idx3) : list Z :=
  flatten2 (fun i k => item board (i, cell, k, elem)).

Definition check_legal (row_idx col_idx : Z) (board : ndarray) : result bool :=
  let legal_flag := true in
  ix ← get_idx row_idx col_idx;
  '(cellRows, cell, innerRow, elem) ← resolve ix;
  let val := item board (cellRows, cell, innerRow, elem) in
  if val =? 0 then Ok false
  else
    let current_cell_values := block_slice board cellRows cell in
    let horizontal_to_val := row_slice board cellRows innerRow in
    let vertical_to_val := col_slice board cell elem in
    Ok (foldl (fun legal_flag area =>
                 if count_eq val area >? 1 then false else legal_flag)
              legal_flag
              [current_cell_values; horizontal_to_val; vertical_to_val]).

(** ** Loops and randomness *)

(** [for x in xs: s = body(x, s)], stopping at the first exception. *)
Fixpoint for_loop {A S : Type} (xs : list A) (body : A -> S -> result S)
    (s : S) : result S :=
  match xs with
  | [] => Ok s
  | x :: xs' => s' ← body x s; for_loop xs' body s'
  end.

(** [range(n)] *)
Definition range (n : Z) : list Z := seqZ 0 n.

(** [l.remove(x)]: drops the first occurrence, [ValueError] when absent. *)
Fixpoint list_remove (x : Z) (l : list Z) : result (list Z) :=
  match l with
  | [] => Raise ValueError
  | y :: l' =>
      if decide (y = x) then Ok l'
      else l'' ← list_remove x l'; Ok (y :: l'')
  end.

(** [np.random.choice(l)] on the raw draw [r]. *)
Definition choice (r : nat) (l : list Z) : result Z :=
  match l !! (r mod length l)%nat with
  | Some v => Ok v
  | None => Raise ValueError
  end.

(** The [n] rows of [np.random.randint(0, 9, (n, 2))] on the raw stream
    [rng]. *)
Definition randint_0_9 (rng : nat -> nat) (n : nat) : list (Z * Z) :=
  (fun i => (Z.of_nat (rng (2 * i)%nat mod 9),
             Z.of_nat (rng (2 * i + 1)%nat mod 9))) <$> seq 0 n.

(** [np.random.randint(0, 9, (n, 2))].  numpy first allocates the
    [n] x 2 array of int64: a negative [n] is a [ValueError], so is an
    [n] whose 16 [n] bytes exceed the address space of a 64-bit machine
    (from 2^59 on), and below that the machine grants at most
    [max_rows] rows and raises [MemoryError] beyond. *)
Definition np_random_randint_0_9 (max_rows : Z) (rng : nat -> nat) (n : Z)
  : result (list (Z * Z)) :=
  if n <? 0 then Raise ValueError
  else if 2 ^ 59 <=? n then Raise ValueError
  else if max_rows <? n then Raise MemoryError
  else Ok (randint_0_9 rng (Z.to_nat n)).

(** ** hide_portion_of_board *)

(** [np.prod(board.shape)] for the shape (3, 3, 3, 3). *)
Definition board_size : Z := 3 * 3 * 3 * 3.

(** [int(np.prod(board.shape) * difficulty)]: the integer 81 times the
    float [difficulty] is a float64 product. *)
Definition num_to_hide (difficulty : float64) : result Z :=
  py_int (float64_mul (Finite board_size 0) difficulty).

Definition hide_portion_of_board (max_rows : Z) (rng : nat -> nat)
    (board : ndarray) (difficulty : float64) : result ndarray :=
  num_to_hide ← num_to_hide difficulty;
  let hidden_board := board in
  ind ← np_random_randint_0_9 max_rows rng num_to_hide;
  for_loop (seq 0 (Z.to_nat num_to_hide))
    (fun i hidden_board =>
       match ind !! i with
       | Some (r, c) => set_value r c hidden_board 0
       | None => Raise IndexError
       end)
    hidden_board.

(** ** makeBoard *)

(** The generator is three nested [while] loops whose counters are also
    moved backwards by the rollback.  It is run as a machine whose states
    sit at the three loop heads; one step evaluates the loop test and, if
    it holds, the loop body up to the next loop head. *)
Inductive control : Type :=
  | OuterWhile                                   (* [while row_idx < 3 * 3] *)
  | InnerWhile                                   (* [while col_idx < 3 * 3] *)
  | CellWhile (possible_values : list Z) (val : Z).
                                   (* [while not check_legal(...)] *)

Record state : Type := State {
  row_idx : Z;
  col_idx : Z;
  init_board : ndarray;
  at_loop : control;
  drawn : nat           (* raw draws consumed so far *)
}.

Inductive outcome : Type :=
  | Continue (s : state)
  | Return (board : ndarray).

#[global] Instance control_eq_dec : EqDecision control.
Proof. solve_decision. Defined.
#[global] Instance state_eq_dec : EqDecision state.
Proof. solve_decision. Defined.
#[global] Instance outcome_eq_dec : EqDecision outcome.
Proof. solve_decision. Defined.

(** One pass of [for i in range(rollbacks)]. *)
Definition rollback_body (_ : Z) (s : Z * Z * ndarray)
  : result (Z * Z * ndarray) :=
  let '(row_idx, col_idx, init_board) := s in
  init_board ← set_value row_idx col_idx init_board 0;
  if col_idx >? 0 then Ok (row_idx, col_idx - 1, init_board)
  else Ok (row_idx - 1, 8, init_board).

Definition step (rollback_factor : Z) (rng : nat -> nat) (s : state)
  : result outcome :=
  let '(State row_idx col_idx init_board ctl drawn) := s in
  match ctl with
  | OuterWhile =>
      if row_idx <? 3 * 3
      then Ok (Continue (State row_idx col_idx init_board InnerWhile drawn))
      else Ok (Return init_board)
  | InnerWhile =>
      if col_idx <? 3 * 3
      then Ok (Continue (State row_idx col_idx init_board
                           (CellWhile (range 10) 0) drawn))
      else Ok (Continue (State (row_idx + 1) 0 init_board OuterWhile drawn))
  | CellWhile possible_values val =>
      legal ← check_legal row_idx col_idx init_board;
      if (legal : bool)
      then Ok (Continue (State row_idx (col_idx + 1) init_board
                           InnerWhile drawn))
      else if Z.of_nat (length possible_values) =? 0 then
        let rollbacks := Z.min rollback_factor (col_idx + row_idx * 8) in
        '(row_idx, col_idx, init_board) ←
          for_loop (range rollbacks) rollback_body
                   (row_idx, col_idx, init_board);
        Ok (Continue (State row_idx col_idx init_board
                        (CellWhile (range 10) 0) drawn))
      else
        possible_values ← list_remove val possible_values;
        if Z.of_nat (length possible_values) =? 0
        then Ok (Continue (State row_idx col_idx init_board
                             (CellWhile possible_values val) drawn))
        else
          val ← choice (rng drawn) possible_values;
          init_board ← set_value row_idx col_idx init_board val;
          Ok (Continue (State row_idx col_idx init_board
                          (CellWhile possible_values val) (S drawn)))
  end.

(** The state on entry to the outer loop.  The board drawn by
    [np.random.randint(1, 9, size=(3, 3, 3, 3))] on the first line is
    overwritten by [np.zeros] before it is read. *)
Definition initial : state := State 0 0 zeros OuterWhile 0.

(** The machine after [n] steps; a [Return] is final. *)
Fixpoint steps (rollback_factor : Z) (rng : nat -> nat) (n : nat) (s : state)
  : result outcome :=
  match n with
  | O => Ok (Continue s)
  | S n' =>
      o ← step rollback_factor rng s;
      match o with
      | Continue s' => steps rollback_factor rng n' s'
      | Return board => Ok (Return board)
      end
  end.

(** [makeBoard(rollback_factor)] run for at most [fuel] steps: [Some] the
    returned board, [None] while the loops are still running. *)
Definition makeBoard (rollback_factor : Z) (rng : nat -> nat) (fuel : nat)
  : result (option ndarray) :=
  o ← steps rollback_factor rng fuel initial;
  match o with
  | Continue _ => Ok None
  | Return board => Ok (Some board)
  end.

(** ** Vocabulary of the properties *)

Definition in_range (row col : Z) : Prop :=
  0 <= row <= 8 /\ 0 <= col <= 8.

(** The range in which float64 has no gaps: every integer of magnitude
    at most 2^53 is a float64. *)
Definition float_exact (value : Z) : Prop :=
  - 2 ^ 53 <= value <= 2 ^ 53.

#[global] Instance float_exact_dec value : Decision (float_exact value).
Proof. unfold float_exact. apply _. Defined.


(** The value at a flat coordinate, read as the module reads it. *)
Definition cell (board : ndarray) (row col : Z) : Z :=
  match get_cell row col board with
  | Ok v => v
  | Raise _ => 0
  end.

(** The 81 flat coordinates, row-major. *)
Definition all_cells : list (Z * Z) :=
  r ← range 9; c ← range 9; [(r, c)].

(** Regions in flat coordinates. *)
Definition flat_row (board : ndarray) (row : Z) : list Z :=
  (fun c => cell board row c) <$> range 9.
Definition flat_col (board : ndarray) (col : Z) : list Z :=
  (fun r => cell board r col) <$> range 9.
Definition block (board : ndarray) (block_row block_col : Z) : list Z :=
  r ← seqZ (3 * block_row) 3; c ← seqZ (3 * block_col) 3; [cell board r c].

(** Two flat coordinates share a block, a row or a column. *)
Definition same_region (row col row' col' : Z) : Prop :=
  (row / 3 = row' / 3 /\ col / 3 = col' / 3) \/ row = row' \/ col = col'.

#[global] Instance same_region_dec r c r' c' : Decision (same_region r c r' c').
Proof. unfold same_region. apply _. Defined.

(** The cells of the block, row and column through [(row, col)]. *)
Definition regions_of (row col : Z) : list (Z * Z) :=
  filter (fun rc => same_region row col rc.1 rc.2) all_cells.

(** The full-board invariant. *)
Definition each_digit_once (area : list Z) : bool :=
  forallb (fun d => count_eq d area =? 1) (seqZ 1 9).

Definition full_board (board : ndarray) : bool :=
  forallb (fun r => each_digit_once (flat_row board r)) (range 9)
  && forallb (fun c => each_digit_once (flat_col board c)) (range 9)
  && forallb (fun br =>
       forallb (fun bc => each_digit_once (block board br bc)) (range 3))
       (range 3)
  && forallb (fun rc => negb (cell board rc.1 rc.2 =? 0)) all_cells.

(** Flat coordinates against resolved indices. *)
Definition idx3_of_Z (z : Z) : idx3 :=
  if z =? 0 then I0 else if z =? 1 then I1 else I2.

Definition of_flat (row col : Z) : pos4 :=
  (idx3_of_Z (row / 3), idx3_of_Z (col / 3),
   idx3_of_Z (row mod 3), idx3_of_Z (col mod 3)).

Definition row_of (p : pos4) : Z :=
  let '(i, _, k, _) := p in 3 * idx3_to_Z i + idx3_to_Z k.
Definition col_of (p : pos4) : Z :=
  let '(_, j, _, l) := p in 3 * idx3_to_Z j + idx3_to_Z l.

(** Two resolved indices share a block, a row or a column. *)
Definition same_region4 (p q : pos4) : Prop :=
  let '(i, j, k, l) := p in
  let '(i', j', k', l') := q in
  (i = i' /\ j = j') \/ (i = i' /\ k = k') \/ (j = j' /\ l = l').

#[global] Instance same_region4_dec p q : Decision (same_region4 p q).
Proof.
  destruct p as [[[i j] k] l], q as [[[i' j'] k'] l']. simpl. apply _.
Defined.

#[global] Instance in_range_dec row col : Decision (in_range row col).
Proof. unfold in_range. apply _. Defined.

(** The value at [p] is a digit that no other cell of its block, row or
    column holds. *)
Definition legal4 (board : ndarray) (p : pos4) : Prop :=
  item board p <> 0
  /\ forall q, q <> p -> same_region4 p q -> item board q <> item board p.

(** Zeroing the cells of a list of flat coordinates, first to last. *)
Definition zero_cells (board : ndarray) (cells : list (Z * Z)) : ndarray :=
  foldl (fun b rc => store b (of_flat rc.1 rc.2) 0) board cells.

(** ** Invariants of the generator *)

(** The row-major rank of a cell, 0..80. *)
Definition position (p : pos4) : Z := 9 * row_of p + col_of p.

(** Every cell the cursor has passed holds a digit. *)
Definition filled_before (board : ndarray) (n : Z) : Prop :=
  forall q, position q < n -> item board q <> 0.

(** No two cells of one block, row or column hold the same digit; the
    cell under the cursor, if any, is left out. *)
Definition consistent_except (board : ndarray) (skip : option pos4) : Prop :=
  forall q q',
    Some q <> skip -> Some q' <> skip -> q <> q' -> same_region4 q q' ->
    item board q <> 0 -> item board q <> item board q'.

Definition digits_only (board : ndarray) : Prop :=
  forall q, 0 <= item board q <= 9.

(** The candidate pool still holds the value about to be removed. *)
Definition pool_ok (possible_values : list Z) (val : Z) : Prop :=
  (possible_values = [] \/ val ∈ possible_values)
  /\ Forall (fun v => 0 <= v <= 9) possible_values.

(** Where the loop counters are at each loop head. *)
Definition cursor_ok (s : state) : Prop :=
  match at_loop s with
  | OuterWhile => 0 <= row_idx s <= 9 /\ col_idx s = 0
  | InnerWhile => 0 <= row_idx s <= 8 /\ 0 <= col_idx s <= 9
  | CellWhile _ _ => in_range (row_idx s) (col_idx s)
  end.

Definition inv (s : state) : Prop :=
  cursor_ok s
  /\ digits_only (init_board s)
  /\ filled_before (init_board s) (9 * row_idx s + col_idx s)
  /\ match at_loop s with
     | OuterWhile | InnerWhile => consistent_except (init_board s) None
     | CellWhile possible_values val =>
         consistent_except (init_board s)
           (Some (of_flat (row_idx s) (col_idx s)))
         /\ pool_ok possible_values val
     end.

Definition outcome_ok (o : outcome) : Prop :=
  match o with
  | Continue s => inv s
  | Return board => full_board board = true
  end.

(** ** Two streams of raw draws *)

(** A completed grid, row by row, and the stream that draws its digits
    in order: the pool is [1..9] at each first pick, so the raw draw
    [d - 1] picks digit [d]. *)
Definition sudoku_digits : list Z :=
  [1; 2; 3; 4; 5; 6; 7; 8; 9;
   4; 5; 6; 7; 8; 9; 1; 2; 3;
   7; 8; 9; 1; 2; 3; 4; 5; 6;
   2; 3; 4; 5; 6; 7; 8; 9; 1;
   5; 6; 7; 8; 9; 1; 2; 3; 4;
   8; 9; 1; 2; 3; 4; 5; 6; 7;
   3; 4; 5; 6; 7; 8; 9; 1; 2;
   6; 7; 8; 9; 1; 2; 3; 4; 5;
   9; 1; 2; 3; 4; 5; 6; 7; 8].

Definition lucky_rng (n : nat) : nat :=
  Z.to_nat (nth n sudoku_digits 1 - 1).

Definition board_of_digits (ds : list Z) : ndarray :=
  foldl (fun b rcv => store b (of_flat rcv.1.1 rcv.1.2) rcv.2)
        zeros (zip all_cells ds).

Definition solved_board : ndarray := board_of_digits sudoku_digits.

(** A stream that fills row 0 with 1..9 and starts row 1 with
    4 5 6 1 2 3.  Cell (1,6) then has no legal digit; the rollback of 8
    returns to (0,7), and the stream repeats the same 16 draws: 9 at
    (0,8), then 4 5 6 1 2 3, then the nine failed picks at (1,6). *)
Definition stuck_rng (n : nat) : nat :=
  if (n <? 8)%nat then n
  else nth ((n - 8) mod 16)%nat
           [8; 3; 4; 5; 0; 1; 2; 0; 0; 0; 0; 0; 0; 0; 0; 0]%nat 0%nat.

Definition shift_drawn (k : nat) (s : state) : state :=
  State (row_idx s) (col_idx s) (init_board s) (at_loop s)
        (drawn s + 16 * k).

(** The states a run passes through, for at most [n] steps. *)
Fixpoint trace (rollback_factor : Z) (rng : nat -> nat) (n : nat) (s : state)
  : list state :=
  match n with
  | O => []
  | S n' =>
      s :: match step rollback_factor rng s with
           | Ok (Continue s') => trace rollback_factor rng n' s'
           | _ => []
           end
  end.

(** The state just after the first rollback, and the 36 states of one
    round from there. *)
Definition stuck_start : state :=
  match steps 8 stuck_rng 60 initial with
  | Ok (Continue s) => s
  | _ => initial
  end.

Definition stuck_cycle : list state := trace 8 stuck_rng 36 stuck_start.

(** Each state of the round steps to a state of the round, or to the
    start of the next round, 16 draws later. *)
Definition cycle_closed : bool :=
  forallb
    (fun s =>
       bool_decide (8 <= drawn s)%nat
       && match step 8 stuck_rng s with
          | Ok (Continue s') =>
              bool_decide (s' ∈ stuck_cycle)
              || bool_decide (s' = shift_drawn 1 stuck_start)
          | _ => false
          end)
    stuck_cycle.

Definition in_cycle (s : state) : Prop :=
  exists k s0, s0 ∈ stuck_cycle /\ s = shift_drawn k s0.

(** ** Further vocabulary for the generator *)

(** No digit of the pool's range is legal at the cell. *)
Definition dead_end (row col : Z) (board : ndarray) : Prop :=
  forall v, 0 <= v <= 9 ->
    (set_value row col board v ≫= check_legal row col) = Ok false.

(** The run of [stuck_rng] at its first arrival at cell (1,6), before any
    rollback. *)
Definition dead_end_state : state :=
  match steps 0 stuck_rng 49 initial with
  | Ok (Continue s) => s
  | _ => initial
  end.

(** The run of [stuck_rng] in the middle of its first visit to cell
    (1,6): 0 and the digits 1..6 have failed, 7 is being tried. *)
Definition mid_visit_state : state :=
  match steps 8 stuck_rng 56 initial with
  | Ok (Continue s) => s
  | _ => initial
  end.

(** What the cell loop knows of its candidates. *)
Definition candidates_ok (s : state) : Prop :=
  match at_loop s with
  | CellWhile possible_values val =>
      NoDup possible_values
      /\ ((possible_values = range 10 /\ val = 0)
          \/ ((0 ∉ possible_values) /\ 1 <= val <= 9
              /\ (length possible_values <= 9)%nat
              /\ get_cell (row_idx s) (col_idx s) (init_board s) = Ok val))
  | _ => True
  end.

(** ** displayBoard *)

(** The line feed. *)
Definition newline : string := String "010"%char EmptyString.

(** [s * n] on strings. *)
Fixpoint str_mul (s : string) (n : nat) : string :=
  match n with
  | O => ""
  | S n' => s +:+ str_mul s n'
  end.

(** [displayBoard] prints one string; the model returns that string,
    the argument of the final [print].  [str(n)] and the [{n}] of an
    f-string are the decimal numeral [pretty n]; the shape is
    (3, 3, 3, 3).  [display_with fmt] is the function with [fmt] for the
    numeral of [int(value)]. *)
Definition display_with (fmt : Z -> string) (board : ndarray) : string :=
  let ret := "" in
  let rowNum := 0 in
  let lineLength := Z.to_nat (3 * 3 * 3 + (3 - 1)) in
  let ret := ret +:+ str_mul " " 2 in
  let ret :=
    foldl (fun ret colNum =>
             if (colNum mod 3 =? 0) && negb (colNum =? 0)
             then ret +:+ "  " +:+ pretty colNum +:+ " "
             else ret +:+ " " +:+ pretty colNum +:+ " ")
          ret (range (3 * 3)) in
  let ret := ret +:+ newline in
  let ret := ret +:+ "  " +:+ str_mul "_" lineLength +:+ newline in
  let '(ret, rowNum) :=
    foldl (fun '(ret, rowNum) i =>
      let '(ret, rowNum) :=
        foldl (fun '(ret, rowNum) j =>
          let ret := ret +:+ pretty rowNum +:+ "|" in
          let rowNum := rowNum + 1 in
          let ret :=
            foldl (fun ret k =>
              let ret :=
                foldl (fun ret value => ret +:+ " " +:+ fmt value +:+ " ")
                      ret ((fun l => item board (i, k, j, l)) <$> all3) in
              ret +:+ "|")
              ret all3 in
          (ret +:+ newline, rowNum))
          (ret, rowNum) all3 in
      (ret +:+ " |" +:+ str_mul "-" lineLength +:+ "|" +:+ newline, rowNum))
      (ret, rowNum) all3 in
  ret.

Definition displayBoard (board : ndarray) : string :=
  display_with pretty board.

(** The one-character numeral of a digit, and where the digit of cell
    (row, col) stands in the text of a board of digits. *)
Definition digit_char (z : Z) : ascii := pretty_N_char (Z.to_N z).

Definition fmt_digit (z : Z) : string := String (digit_char z) EmptyString.

Definition display_offset (row col : Z) : nat :=
  Z.to_nat (64 + 33 * (row + row / 3) + 3 + 10 * (col / 3) + 3 * (col mod 3)).

(** ** The session: console, log and directory *)

(** What [load_from_file] and [game] can end with besides the errors of
    the functions above: [input] at the end of the input, and [np.save]
    on a file it cannot open. *)
Inductive session_error : Type :=
  | ModuleError (e : exn)
  | EOFError
  | OSError.

(** The world of a session.  [input] takes the next line of [stdin]
    and writes its prompt to [stdout], [print] appends to [stdout] and
    [logging.warn] to [warnings].  The directory is shared with the
    outside and is an oracle: the n-th call of [os.listdir(".")] is
    answered by [listings n], each name with the array [np.load] reads
    from it, whatever the session has saved.  [np.save] succeeds on the
    names [writable] accepts and is then recorded in [saved].  Files
    named [*.npy] are taken to hold boards. *)
Record world : Type := World {
  stdin : list string;
  stdout : list string;
  warnings : list string;
  listings : nat -> list (string * ndarray);
  listed : nat;
  saved : list (string * ndarray);
  writable : string -> bool
}.

(** A computation on the world ends with a value, with an exception, or
    is cut off when the fuel given to its loops is used up. *)
Inductive status (A : Type) : Type :=
  | Returned (a : A)
  | Raised (e : session_error)
  | OutOfFuel.
Arguments Returned {A} a.
Arguments Raised {A} e.
Arguments OutOfFuel {A}.

Definition io (A : Type) : Type := world -> status A * world.

#[global] Instance io_ret : MRet io := fun _ a w => (Returned a, w).
#[global] Instance io_bind : MBind io := fun _ _ f m w =>
  match m w with
  | (Returned a, w') => f a w'
  | (Raised e, w') => (Raised e, w')
  | (OutOfFuel, w') => (OutOfFuel, w')
  end.

Definition raise {A} (e : session_error) : io A := fun w => (Raised e, w).

Definition out_of_fuel {A} : io A := fun w => (OutOfFuel, w).

Definition lift {A} (r : result A) : io A :=
  match r with
  | Ok a => mret a
  | Raise e => raise (ModuleError e)
  end.

Definition print (s : string) : io unit := fun w =>
  (Returned tt,
   World (stdin w) (stdout w ++ [s]) (warnings w) (listings w) (listed w)
         (saved w) (writable w)).

Definition input (prompt : string) : io string := fun w =>
  let w' := World (tail (stdin w)) (stdout w ++ [prompt]) (warnings w)
                  (listings w) (listed w) (saved w) (writable w) in
  match stdin w with
  | [] => (Raised EOFError, w')
  | line :: _ => (Returned line, w')
  end.

Definition logging_warn (s : string) : io unit := fun w =>
  (Returned tt,
   World (stdin w) (stdout w) (warnings w ++ [s]) (listings w) (listed w)
         (saved w) (writable w)).

Definition os_listdir : io (list (string * ndarray)) := fun w =>
  (Returned (listings w (listed w)),
   World (stdin w) (stdout w) (warnings w) (listings w) (S (listed w))
         (saved w) (writable w)).

(** [file.endswith(suffix)] *)
Definition endswith (s suffix : string) : bool :=
  bool_decide (list_ascii_of_string suffix `suffix_of` list_ascii_of_string s).

(** [np.save(file, arr)] appends [.npy] to a name that lacks it and
    opens that file for writing, which raises [OSError] (a missing
    directory, no permission) when the name is not [writable]. *)
Definition np_save (file : string) (arr : ndarray) : io unit := fun w =>
  let name := if endswith file ".npy" then file else file +:+ ".npy" in
  if writable w name then
    (Returned tt,
     World (stdin w) (stdout w) (warnings w) (listings w) (listed w)
           (saved w ++ [(name, arr)]) (writable w))
  else (Raised OSError, w).

(** [for x in xs] on the world. *)
Fixpoint for_io {A S : Type} (xs : list A) (body : A -> S -> io S) (s : S)
  : io S :=
  match xs with
  | [] => mret s
  | x :: xs' => s' ← body x s; for_io xs' body s'
  end.

(** ** load_from_file *)

(** [all(found)] for the two counters. *)
Definition all_found (found : Z * Z) : bool :=
  negb (found.1 =? 0) && negb (found.2 =? 0).

(** One pass of [for file in os.listdir(".")].  The locals [user_board]
    and [complete_board] are bound only here; [None] is an unbound
    local. *)
Definition scan_file (file : string * ndarray)
    (st : Z * Z * option ndarray * option ndarray)
  : io (Z * Z * option ndarray * option ndarray) :=
  let '(found, user_board, complete_board) := st in
  if endswith file.1 ".npy" then
    _ ← print ("Found file " +:+ file.1 +:+ ". Trying to load");
    if endswith file.1 "_usr.npy" then
      mret ((found.1 + 1, found.2), Some file.2, complete_board)
    else if endswith file.1 "_sol.npy" then
      mret ((found.1, found.2 + 1), user_board, Some file.2)
    else mret (found, user_board, complete_board)
  else mret (found, user_board, complete_board).

Definition load_from_file : io (ndarray * ndarray) :=
  fn ← input "Enter filename, leave blank to search for current directory: ";
  '(user_board, complete_board) ←
    (if decide (fn = "") then
       let found := (0, 0) in
       files ← os_listdir;
       '(found, user_board, complete_board) ←
         for_io files scan_file (found, None, None);
       _ ← (if negb (Z.b2z (all_found found) =? 1)
            then logging_warn
                   "Warning: Lookup did not find (exactly) one solution and user progress. Incorrect boards may have been loaded."
            else mret tt);
       mret (user_board, complete_board)
     else mret (None, None));
  match user_board, complete_board with
  | Some user_board, Some complete_board => mret (user_board, complete_board)
  | _, _ => raise (ModuleError UnboundLocalError)
  end.

(** ** game *)

(** All positions of the array, and [board.all()]. *)
Definition all_pos4 : list pos4 :=
  i ← all3; j ← all3; k ← all3; l ← all3; [(i, j, k, l)].

Definition ndarray_all (board : ndarray) : bool :=
  forallb (fun p => negb (item board p =? 0)) all_pos4.

(** [reply.split(",")] *)
Fixpoint split_comma_go (cur : string) (s : string) : list string :=
  match s with
  | EmptyString => [String.rev cur]
  | String a s' =>
      if Ascii.eqb a ","%char
      then String.rev cur :: split_comma_go "" s'
      else split_comma_go (String a cur) s'
  end.
Definition split_comma (s : string) : list string := split_comma_go "" s.

(** [row, col, val = [int(i) for i in reply.split(",")]], [None] when
    the statement raises.  [int] on a string is the parameter
    [parse_int]. *)
Definition parse_reply (parse_int : string -> option Z) (reply : string)
  : option (Z * Z * Z) :=
  match mapM parse_int (split_comma reply) with
  | Some [row; col; val] => Some (row, col, val)
  | _ => None
  end.

(** [s.lower()] on the letters A..Z; other bytes stay. *)
Definition ascii_lower (a : ascii) : ascii :=
  let n := nat_of_ascii a in
  if (65 <=? n)%nat && (n <=? 90)%nat then ascii_of_nat (n + 32) else a.
Fixpoint py_lower (s : string) : string :=
  match s with
  | EmptyString => EmptyString
  | String a s' => String (ascii_lower a) (py_lower s')
  end.

Definition actions : list string := ["play"; "save"; "load"; "exit"].

(** [while action not in (...): action = input(...)] *)
Fixpoint ask_again (fuel : nat) (action : string) : io string :=
  if bool_decide (action ∈ actions) then mret action
  else
    match fuel with
    | O => out_of_fuel
    | S fuel' =>
        action ← input "Invalid command. Try again: ";
        ask_again fuel' action
    end.

(** The two ways out of the main loop of [game]. *)
Definition boards_agree (user_board complete_board : ndarray) : bool :=
  eqb (ndarray_all user_board) (ndarray_all complete_board).

(** The main loop of [game]: [while user_board.all() != complete_board.all()]. *)
Fixpoint game_loop (parse_int : string -> option Z) (hints : bool)
    (fuel : nat) (user_board complete_board : ndarray)
  : io (ndarray * ndarray) :=
  match fuel with
  | O => out_of_fuel
  | S fuel' =>
      if negb (boards_agree user_board complete_board) then
        action ← input "What do you want to do? (play, save, load, exit)";
        action ← ask_again fuel' action;
        if decide (action = "save") then
          save_pth ← input "What should it be saved as? ";
          _ ← np_save (save_pth +:+ "_usr") user_board;
          _ ← np_save (save_pth +:+ "_sol") complete_board;
          _ ← print "Successfully saved!";
          game_loop parse_int hints fuel' user_board complete_board
        else if decide (action = "load") then
          '(user_board, complete_board) ← load_from_file;
          game_loop parse_int hints fuel' user_board complete_board
        else if decide (action = "play") then
          reply ← input "Set value to board, format '<row>,<col>,<val>': ";
          match parse_reply parse_int reply with
          | None =>
              _ ← print "Invalid format.";
              game_loop parse_int hints fuel' user_board complete_board
          | Some (row, col, val) =>
              user_board ← lift (set_value row col user_board val);
              user_board ←
                (if hints then
                   legal ← lift (check_legal row col user_board);
                   if negb legal then
                     override_reply ←
                       input "I wouldn't do that if I were you.. Are you sure? (Y/N)";
                     if decide (py_lower override_reply = "n")
                     then lift (set_value row col user_board 0)
                     else mret user_board
                   else mret user_board
                 else mret user_board);
              _ ← print (displayBoard user_board);
              game_loop parse_int hints fuel' user_board complete_board
          end
        else if decide (action = "exit") then
          mret (user_board, complete_board)
        else game_loop parse_int hints fuel' user_board complete_board
      else mret (user_board, complete_board)
  end.

(** The closing message. *)
Definition farewell (user_board complete_board : ndarray) : io unit :=
  if boards_agree user_board complete_board
  then print "Congrats, you won!"
  else print "Sad to see you go. Let's play again soon!".

(** [game(difficulty, hints)].  The random draws of [makeBoard] and of
    the masker are two streams, and [fuel] bounds the loops. *)
Definition game (parse_int : string -> option Z) (max_rows : Z)
    (rng_board rng_mask : nat -> nat) (fuel : nat)
    (difficulty : float64) (hints : bool) : io unit :=
  made ← lift (makeBoard 8 rng_board fuel);
  match made with
  | None => out_of_fuel
  | Some complete_board =>
      _ ← print "Welcome to Sudoku!";
      _ ← print "Set a value by writing input on the form '<row>,<col>,<val>', e.g. 1,5,3 to set '3' to row 1 and column 5";
      _ ← print "Choose value '0' to undo a change.";
      user_board ←
        lift (hide_portion_of_board max_rows rng_mask complete_board
                difficulty);
      _ ← print (displayBoard complete_board);
      _ ← print (displayBoard user_board);
      '(user_board, complete_board) ←
        game_loop parse_int hints fuel user_board complete_board;
      farewell user_board complete_board
  end.

(** ** Vocabulary for the session *)

(** The world after more lines were written to [stdout]. *)
Definition printed (lines : list string) (w : world) : world :=
  World (stdin w) (stdout w ++ lines) (warnings w) (listings w) (listed w)
        (saved w) (writable w).

(** The world after [input] took a line. *)
Definition consumed (prompt : string) (w : world) : world :=
  World (tail (stdin w)) (stdout w ++ [prompt]) (warnings w) (listings w)
        (listed w) (saved w) (writable w).

(** The array of the last listed file whose name ends with [suffix]. *)
Definition last_with (suffix : string) (files : list (string * ndarray))
  : option ndarray :=
  snd <$> last (filter (fun f => endswith f.1 suffix = true) files).

(** What the directory scan prints. *)
Definition found_messages (files : list (string * ndarray)) : list string :=
  (fun f => "Found file " +:+ f.1 +:+ ". Trying to load")
    <$> filter (fun f => endswith f.1 ".npy" = true) files.

Definition load_prompt : string :=
  "Enter filename, leave blank to search for current directory: ".

Definition load_warning : string :=
  "Warning: Lookup did not find (exactly) one solution and user progress. Incorrect boards may have been loaded.".

Definition action_prompt : string :=
  "What do you want to do? (play, save, load, exit)".

Definition play_prompt : string :=
  "Set value to board, format '<row>,<col>,<val>': ".

Definition override_prompt : string :=
  "I wouldn't do that if I were you.. Are you sure? (Y/N)".

(** What [game] prints before the boards, and its two closing lines. *)
Definition welcome_lines : list string :=
  ["Welcome to Sudoku!";
   "Set a value by writing input on the form '<row>,<col>,<val>', e.g. 1,5,3 to set '3' to row 1 and column 5";
   "Choose value '0' to undo a change."].

Definition congrats : string := "Congrats, you won!".

Definition goodbye : string := "Sad to see you go. Let's play again soon!".

(** [m] run from a world with fewer than [n] lines of input left does
    not run out of fuel and leaves no more input than it found. *)
Definition tame {A} (n : nat) (m : io A) : Prop :=
  forall w, (length (stdin w) < n)%nat ->
    (m w).1 <> OutOfFuel /\ (length (stdin (m w).2) <= length (stdin w))%nat.

Definition save_prompt : string := "What should it be saved as? ".

(** [int] on a plain decimal numeral, an instance of [parse_int] for
    the examples. *)
Fixpoint decimal_go (acc : Z) (s : string) : option Z :=
  match s with
  | EmptyString => Some acc
  | String a s' =>
      let n := nat_of_ascii a in
      if (48 <=? n)%nat && (n <=? 57)%nat
      then decimal_go (10 * acc + Z.of_nat (n - 48)) s'
      else None
  end.
Definition decimal (s : string) : option Z :=
  match s with
  | EmptyString => None
  | _ => decimal_go 0 s
  end.

(** A fresh session over the given lines of input: nothing printed,
    an empty directory at every listing, every file writable. *)
Definition console (lines : list string) : world :=
  World lines [] [] (fun _ => []) 0 [] (fun _ => true).

(** * Properties *)

(** ** The model on small inputs *)

Example get_idx_corner : get_idx 8 0 = Ok (2, 0, 2, 0).
Proof. reflexivity. Qed.

Example get_idx_off_board : get_idx 9 0 = Raise AssertionError.
Proof. reflexivity. Qed.

Example check_legal_empty_cell : check_legal 4 4 zeros = Ok false.
Proof. reflexivity. Qed.

Example check_legal_lone_digit :
  (set_value 4 4 zeros 7 ≫= check_legal 4 4) = Ok true.
Proof. reflexivity. Qed.

Example check_legal_same_block :
  (b ← set_value 4 4 zeros 7; b' ← set_value 3 5 b 7; check_legal 4 4 b')
  = Ok false.
Proof. reflexivity. Qed.

Example makeBoard_still_running : makeBoard 8 lucky_rng 261 = Ok None.
Proof. vm_compute. reflexivity. Qed.

(** ** The error monad *)

Lemma bind_Ok {A B} (a : A) (f : A -> result B) : (Ok a ≫= f) = f a.
Proof. reflexivity. Qed.

Lemma bind_Raise {A B} (e : exn) (f : A -> result B) :
  (Raise e ≫= f) = Raise e.
Proof. reflexivity. Qed.

(** ** Coordinates *)

Ltac enum9 r :=
  let H := fresh "H" in
  assert (H : r = 0 \/ r = 1 \/ r = 2 \/ r = 3 \/ r = 4 \/ r = 5
              \/ r = 6 \/ r = 7 \/ r = 8) by lia;
  destruct H as [-> | [-> | [-> | [-> | [-> | [-> | [-> | [-> | ->]]]]]]]].

Ltac enum3 r :=
  let H := fresh "H" in
  assert (H : r = 0 \/ r = 1 \/ r = 2) by lia;
  destruct H as [-> | [-> | ->]].

Lemma in_range_dec_false row col :
  ~ in_range row col ->
  (0 <=? row) && (row <=? 8) && (0 <=? col) && (col <=? 8) = false.
Proof.
  unfold in_range. intros Hn.
  destruct ((0 <=? row) && (row <=? 8) && (0 <=? col) && (col <=? 8))
    eqn:E; [|done].
  exfalso. apply Hn. repeat (apply andb_prop in E as [E ?]). lia.
Qed.

Lemma get_idx_in_range row col :
  in_range row col ->
  get_idx row col = Ok (row / 3, col / 3, row mod 3, col mod 3).
Proof. intros [Hr Hc]. enum9 row; enum9 col; reflexivity. Qed.

Lemma get_idx_out_of_range row col :
  ~ in_range row col -> get_idx row col = Raise AssertionError.
Proof.
  intros Hn. unfold get_idx. by rewrite (in_range_dec_false _ _ Hn).
Qed.

Lemma resolve_div_mod row col :
  in_range row col ->
  resolve (row / 3, col / 3, row mod 3, col mod 3) = Ok (of_flat row col).
Proof. intros [Hr Hc]. enum9 row; enum9 col; reflexivity. Qed.

Lemma of_flat_inj row col row' col' :
  in_range row col -> in_range row' col' ->
  of_flat row col = of_flat row' col' -> row = row' /\ col = col'.
Proof.
  intros [Hr Hc] [Hr' Hc'] Heq.
  injection Heq as A C B D. split.
  - clear C D Hc Hc'. enum9 row; enum9 row'; (done || discriminate).
  - clear A B Hr Hr'. enum9 col; enum9 col'; (done || discriminate).
Qed.

Lemma of_flat_row_col p :
  in_range (row_of p) (col_of p) /\ of_flat (row_of p) (col_of p) = p.
Proof. destruct p as [[[[] []] []] []]; (split; [unfold in_range; simpl; lia | reflexivity]). Qed.

Lemma row_col_of_flat row col :
  in_range row col ->
  row_of (of_flat row col) = row /\ col_of (of_flat row col) = col.
Proof. intros [Hr Hc]. split; [enum9 row | enum9 col]; reflexivity. Qed.

Lemma get_cell_in_range row col board :
  in_range row col -> get_cell row col board = Ok (item board (of_flat row col)).
Proof.
  intros H. unfold get_cell, getitem.
  rewrite (get_idx_in_range _ _ H), bind_Ok.
  by rewrite (resolve_div_mod _ _ H).
Qed.

Lemma cell_in_range row col board :
  in_range row col -> cell board row col = item board (of_flat row col).
Proof. intros H. unfold cell. by rewrite (get_cell_in_range _ _ _ H). Qed.

Lemma round_half_even_0 a : round_half_even a 0 = a.
Proof.
  unfold round_half_even. by rewrite Z.pow_0_r, Z.div_1_r, Z.mod_1_r.
Qed.

Lemma float64_of_int_exact value :
  float_exact value -> float64_of_int value = Ok value.
Proof.
  unfold float_exact. intros Hv.
  destruct (decide (value = 2 ^ 53)) as [->|Hhi]; [reflexivity|].
  destruct (decide (value = - 2 ^ 53)) as [->|Hlo]; [reflexivity|].
  assert (Ha : Z.abs value < 2 ^ 53) by lia.
  assert (Hlog : Z.log2 (Z.abs value) <= 52).
  { destruct (decide (Z.abs value = 0)) as [->|Hnz]; [done|].
    apply Z.lt_succ_r, Z.log2_lt_pow2; [lia | exact Ha]. }
  unfold float64_of_int, float64_round.
  replace (Z.max 0 (Z.max (Z.log2 (Z.abs value) - 52) (- 1074 - 0)))
    with 0 by lia.
  rewrite round_half_even_0.
  destruct (Z.eqb_spec (Z.abs value) 0) as [Hz|Hz].
  { f_equal. lia. }
  destruct (Z.leb_spec 1024 (Z.log2 (Z.abs value) + (0 + 0))) as [?|_]; [lia|].
  f_equal. change (2 ^ (0 + 0)) with 1.
  destruct value as [|v|v]; cbn [Z.sgn Z.abs]; lia.
Qed.

Lemma float_exact_digit value : 0 <= value <= 9 -> float_exact value.
Proof. unfold float_exact. lia. Qed.

Lemma set_value_converts row col board value :
  in_range row col ->
  set_value row col board value
  = (v ← float64_of_int value; Ok (store board (of_flat row col) v)).
Proof.
  intros H. unfold set_value, setitem.
  rewrite (get_idx_in_range _ _ H), bind_Ok.
  by rewrite (resolve_div_mod _ _ H), bind_Ok.
Qed.

Lemma set_value_in_range row col board value :
  in_range row col -> float_exact value ->
  set_value row col board value = Ok (store board (of_flat row col) value).
Proof.
  intros H Hv. rewrite (set_value_converts _ _ _ _ H).
  by rewrite (float64_of_int_exact _ Hv).
Qed.

Lemma set_value_zero row col board :
  in_range row col ->
  set_value row col board 0 = Ok (store board (of_flat row col) 0).
Proof. intros H. by apply set_value_in_range. Qed.

Lemma set_value_out_of_range row col board value :
  ~ in_range row col -> set_value row col board value = Raise AssertionError.
Proof.
  intros H. unfold set_value. by rewrite (get_idx_out_of_range _ _ H).
Qed.

Lemma get3_set3 {A} (a : arr3 A) i j x :
  get3 (set3 a i x) j = if decide (i = j) then x else get3 a j.
Proof. by destruct i, j. Qed.

Lemma item_store board p q value :
  item (store board p value) q = if decide (p = q) then value else item board q.
Proof.
  destruct p as [[[i j] k] l], q as [[[i' j'] k'] l']. simpl.
  destruct (decide (i = i')) as [->|Hi].
  2: { rewrite decide_False by congruence. by rewrite get3_set3, decide_False. }
  rewrite get3_set3, decide_True by done.
  destruct (decide (j = j')) as [->|Hj].
  2: { rewrite decide_False by congruence. by rewrite get3_set3, decide_False. }
  rewrite get3_set3, decide_True by done.
  destruct (decide (k = k')) as [->|Hk].
  2: { rewrite decide_False by congruence. by rewrite get3_set3, decide_False. }
  rewrite get3_set3, decide_True by done.
  rewrite get3_set3.
  destruct (decide (l = l')) as [->|Hl].
  - by rewrite decide_True.
  - by rewrite decide_False by congruence.
Qed.

Lemma item_store_eq board p value : item (store board p value) p = value.
Proof. rewrite item_store. by case_decide. Qed.

Lemma item_store_ne board p q value :
  p <> q -> item (store board p value) q = item board q.
Proof. intros. rewrite item_store. by case_decide. Qed.

(** C3: for row and col in 0..8, [get_idx row col] is
    [(row // 3, col // 3, row % 3, col % 3)], in the order block-row,
    block-col, inner-row, inner-col; in particular
    [get_idx 3 7 = (1, 2, 0, 1)]. *)
Theorem get_idx_is_div_mod :
  (forall row col, 0 <= row <= 8 -> 0 <= col <= 8 ->
     get_idx row col = Ok (row / 3, col / 3, row mod 3, col mod 3))
  /\ get_idx 3 7 = Ok (1, 2, 0, 1).
Proof.
  split; [|reflexivity].
  intros row col Hr Hc. by apply get_idx_in_range.
Qed.

Lemma get_idx_is_div_mod_witness :
  get_idx 5 8 = Ok (1, 2, 2, 2).
Proof.
  exact (proj1 get_idx_is_div_mod 5 8 ltac:(lia) ltac:(lia)).
Defined.

(** C4: [get_idx] restricted to 0..8 x 0..8 is injective, its values
    lie in (0..2)^4 and every such 4-tuple is reached, and the inverse
    mapper [to_flat] brings every one of the 81 flat coordinates back:
    [to_flat (get_idx row col) = (row, col)]. *)
Theorem get_idx_bijection :
  (forall row col row' col',
     in_range row col -> in_range row' col' ->
     get_idx row col = get_idx row' col' -> (row, col) = (row', col'))
  /\ (forall row col a b k l,
        get_idx row col = Ok (a, b, k, l) ->
        0 <= a <= 2 /\ 0 <= b <= 2 /\ 0 <= k <= 2 /\ 0 <= l <= 2)
  /\ (forall a b k l,
        0 <= a <= 2 -> 0 <= b <= 2 -> 0 <= k <= 2 -> 0 <= l <= 2 ->
        exists row col, in_range row col /\ get_idx row col = Ok (a, b, k, l))
  /\ (forall row col,
        in_range row col -> (get_idx row col ≫= to_flat) = Ok (row, col))
  /\ Forall (fun rc => (get_idx rc.1 rc.2 ≫= to_flat) = Ok rc) all_cells
  /\ length all_cells = 81%nat.
Proof.
  split_and!.
  - intros row col row' col' H H'.
    rewrite (get_idx_in_range _ _ H), (get_idx_in_range _ _ H').
    intros [= A B C D].
    f_equal; [rewrite (Z.div_mod row 3), (Z.div_mod row' 3) by lia
             |rewrite (Z.div_mod col 3), (Z.div_mod col' 3) by lia]; congruence.
  - intros row col a b k l Hg.
    destruct (decide (in_range row col)) as [H|H].
    + rewrite (get_idx_in_range _ _ H) in Hg. injection Hg as <- <- <- <-.
      destruct H.
      pose proof (Z.mod_pos_bound row 3). pose proof (Z.mod_pos_bound col 3).
      repeat split; try lia;
        first [apply Z.div_pos; lia | apply Z.div_le_upper_bound; lia
              | apply Z.lt_succ_r, Z.div_lt_upper_bound; lia].
    + by rewrite (get_idx_out_of_range _ _ H) in Hg.
  - intros a b k l Ha Hb Hk Hl. exists (3 * a + k), (3 * b + l).
    split; [unfold in_range; lia|].
    enum3 a; enum3 b; enum3 k; enum3 l; reflexivity.
  - intros row col [Hr Hc]. enum9 row; enum9 col; reflexivity.
  - unfold all_cells. vm_compute. repeat constructor.
  - reflexivity.
Qed.

Lemma get_idx_bijection_witness :
  (get_idx 3 7 ≫= to_flat) = Ok (3, 7).
Proof.
  apply (proj1 (proj2 (proj2 (proj2 get_idx_bijection))) 3 7).
  unfold in_range. lia.
Defined.

(** ** set_value *)

Lemma get_cell_set_value row col board value v :
  in_range row col ->
  float64_of_int value = Ok v ->
  exists board',
    set_value row col board value = Ok board'
    /\ get_cell row col board' = Ok v
    /\ (forall r c, in_range r c -> (r, c) <> (row, col) ->
          get_cell r c board' = get_cell r c board).
Proof.
  intros H Hv. eexists. split.
  { rewrite (set_value_converts _ _ _ _ H), Hv. reflexivity. }
  split.
  - by rewrite get_cell_in_range, item_store_eq.
  - intros r c H' Hne. rewrite !get_cell_in_range by done.
    rewrite item_store_ne; [done|].
    intros Heq. apply Hne. symmetry in Heq.
    by destruct (of_flat_inj _ _ _ _ H' H Heq) as [-> ->].
Qed.

(** On the store, [set_value] is the value-level function applied to the
    contents of the argument, written to a fresh array. *)
Lemma heap_set_value_spec (h : gmap positive ndarray) board b row col value :
  h !! board = Some b ->
  Heap.set_value row col board value h =
    (b' ← set_value row col b value;
     Ok (fresh (dom h), <[fresh (dom h) := b']> h)).
Proof.
  intros Hb. unfold Heap.set_value, Heap.copy, Heap.alloc, set_value.
  rewrite Hb, bind_Ok.
  destruct (get_idx row col) as [ix|e]; [|done].
  rewrite !bind_Ok. unfold Heap.assign.
  rewrite lookup_insert_eq.
  destruct (setitem b ix value) as [b'|e]; [|done].
  rewrite !bind_Ok. by rewrite insert_insert_eq.
Qed.

(** The only error of the conversion is the overflow. *)
Lemma float64_of_int_error value e :
  float64_of_int value = Raise e -> e = OverflowError.
Proof.
  unfold float64_of_int. destruct (float64_round value 0); congruence.
Qed.

(** C5 as stated fails: the board is an array of float64, so an integer
    above 2^53 is stored rounded and the cell does not hold the value
    written. *)
Lemma set_value_rounds_large_value :
  in_range 0 0
  /\ (set_value 0 0 zeros (2 ^ 53 + 1) ≫= get_cell 0 0) = Ok (2 ^ 53)
  /\ 2 ^ 53 <> 2 ^ 53 + 1.
Proof.
  split; [unfold in_range; lia|]. split; [by vm_compute | lia].
Qed.

(** C5, amended: [set_value] is copy-on-write.  For in-range coordinates
    and a value within the float range it returns a new array whose cell
    at (row, col) holds the float64 nearest to the value, which is the
    value itself up to magnitude 2^53 (so for every cell value 0..9),
    and whose 80 other cells equal those of the input; the input array,
    like every array already in the store, is left unchanged.  A value
    beyond the float range raises [OverflowError]. *)
Theorem set_value_copy_on_write
    (h : gmap positive ndarray) (board : Heap.ref) (b : ndarray)
    (row col value : Z) :
  h !! board = Some b ->
  in_range row col ->
  match float64_of_int value with
  | Ok v =>
      (float_exact value -> v = value)
      /\ exists out_board h' b',
           Heap.set_value row col board value h = Ok (out_board, h')
           /\ set_value row col b value = Ok b'
           /\ h !! out_board = None
           /\ h' !! out_board = Some b'
           /\ get_cell row col b' = Ok v
           /\ (forall r c, in_range r c -> (r, c) <> (row, col) ->
                 get_cell r c b' = get_cell r c b)
           /\ length (filter (fun rc => rc <> (row, col)) all_cells) = 80%nat
           /\ h' !! board = Some b
           /\ (forall r, r <> out_board -> h' !! r = h !! r)
  | Raise e =>
      e = OverflowError
      /\ Heap.set_value row col board value h = Raise OverflowError
      /\ set_value row col b value = Raise OverflowError
  end.
Proof.
  intros Hb Hin.
  destruct (float64_of_int value) as [v|e] eqn:Hconv.
  2:{ pose proof (float64_of_int_error _ _ Hconv) as ->.
      assert (Hs : set_value row col b value = Raise OverflowError)
        by (by rewrite (set_value_converts _ _ _ _ Hin), Hconv).
      split; [done|]. split; [|done].
      by rewrite (heap_set_value_spec _ _ _ _ _ _ Hb), Hs. }
  split.
  { intros Hv. rewrite (float64_of_int_exact _ Hv) in Hconv. congruence. }
  destruct (get_cell_set_value row col b value v Hin Hconv)
    as (b' & Hs & Hv & Ho).
  assert (Hfresh : h !! fresh (dom h) = None).
  { apply not_elem_of_dom, is_fresh. }
  exists (fresh (dom h)), (<[fresh (dom h) := b']> h), b'.
  split_and!; try done.
  - by rewrite (heap_set_value_spec _ _ _ _ _ _ Hb), Hs.
  - apply lookup_insert_eq.
  - destruct Hin as [Hr Hc]. enum9 row; enum9 col; reflexivity.
  - rewrite lookup_insert_ne; [done|]. intros <-. congruence.
  - intros r Hr. by rewrite lookup_insert_ne.
Qed.

Lemma set_value_copy_on_write_witness :
  (float_exact 6 -> 6 = 6)
  /\ exists out_board h' b',
       Heap.set_value 4 7 1%positive 6 {[ 1%positive := zeros ]}
         = Ok (out_board, h')
       /\ set_value 4 7 zeros 6 = Ok b'
       /\ ({[ 1%positive := zeros ]} : gmap positive ndarray) !! out_board
          = None
       /\ h' !! out_board = Some b'
       /\ get_cell 4 7 b' = Ok 6
       /\ (forall r c, in_range r c -> (r, c) <> (4, 7) ->
             get_cell r c b' = get_cell r c zeros)
       /\ length (filter (fun rc => rc <> (4, 7)) all_cells) = 80%nat
       /\ h' !! 1%positive = Some zeros
       /\ (forall r, r <> out_board ->
             h' !! r
             = ({[ 1%positive := zeros ]} : gmap positive ndarray) !! r).
Proof.
  apply (set_value_copy_on_write {[ 1%positive := zeros ]} 1%positive zeros 4 7 6).
  - reflexivity.
  - unfold in_range. lia.
Defined.

(** The float range: the conversion overflows exactly from
    2^1024 - 2^970 on, the midpoint between the largest float64 and
    2^1024. *)
Lemma float64_of_int_overflow value :
  float64_of_int value = Raise OverflowError
  <-> 2 ^ 1024 - 2 ^ 970 <= Z.abs value.
Proof.
  destruct (decide (float_exact value)) as [Hex|Hex].
  { rewrite (float64_of_int_exact _ Hex). unfold float_exact in Hex.
    split; [done|]. intros H. exfalso.
    assert (2 ^ 53 < 2 ^ 1024 - 2 ^ 970) by (by vm_compute). lia. }
  unfold float_exact in Hex.
  assert (Ha : 2 ^ 53 < Z.abs value) by lia.
  unfold float64_of_int, float64_round.
  set (a := Z.abs value) in *.
  set (e := Z.log2 a).
  assert (Hpos : 0 < a) by lia.
  destruct (Z.log2_spec a Hpos) as [Hlo Hhi]. fold e in Hlo, Hhi.
  assert (He : 53 <= e).
  { apply Z.log2_le_pow2; [done | lia]. }
  replace (Z.max 0 (Z.max (e - 52) (- 1074 - 0))) with (e - 52) by lia.
  set (shift := e - 52).
  assert (Hpow : 2 ^ e = 2 ^ 52 * 2 ^ shift).
  { unfold shift. rewrite <- Z.pow_add_r by lia. f_equal. lia. }
  assert (Hpow' : 2 ^ Z.succ e = 2 ^ 53 * 2 ^ shift).
  { unfold shift. rewrite <- Z.pow_add_r by lia. f_equal. lia. }
  assert (Hs : 0 < 2 ^ shift) by (apply Z.pow_pos_nonneg; lia).
  pose proof (Z.div_mod a (2 ^ shift) ltac:(lia)) as Hdm.
  pose proof (Z.mod_pos_bound a (2 ^ shift) Hs) as Hr.
  set (q := a / 2 ^ shift) in *. set (r := a mod 2 ^ shift) in *.
  assert (Hq : 2 ^ 52 <= q < 2 ^ 53).
  { split.
    - apply Z.div_le_lower_bound; [done|]. lia.
    - apply Z.div_lt_upper_bound; [done|]. lia. }
  assert (Hk : 2 ^ 52 <= round_half_even a shift <= 2 ^ 53
               /\ (round_half_even a shift = 2 ^ 53
                   <-> q = 2 ^ 53 - 1 /\ 2 ^ shift <= 2 * r)).
  { unfold round_half_even. fold q r.
    destruct (Z.ltb_spec (2 * r) (2 ^ shift)); [lia|].
    destruct (Z.ltb_spec (2 ^ shift) (2 * r)); [lia|].
    destruct (Z.even q) eqn:Hev; [|lia].
    split; [lia|]. split; [lia|]. intros [Hq' _]. rewrite Hq' in Hev.
    by vm_compute in Hev. }
  set (k := round_half_even a shift) in *.
  destruct Hk as [Hk Hk53].
  destruct (Z.eqb_spec k 0) as [?|_]; [lia|].
  assert (Hlog : Z.log2 k = if decide (k = 2 ^ 53) then 53 else 52).
  { case_decide as Hc; [by rewrite Hc|].
    apply Z.log2_unique; [lia|]. change (2 ^ Z.succ 52) with (2 ^ 53). lia. }
  rewrite Hlog.
  assert (Hshift : 970 <= shift - 1 -> 2 ^ 970 <= 2 ^ (shift - 1)).
  { intros ?. apply Z.pow_le_mono_r; lia. }
  assert (Hhalf : 2 ^ shift = 2 * 2 ^ (shift - 1)).
  { rewrite <- Z.pow_succ_r by lia. f_equal. lia. }
  assert (HT : 2 ^ 1024 - 2 ^ 970 = (2 ^ 54 - 1) * 2 ^ 970) by (by vm_compute).
  split.
  - destruct (Z.leb_spec 1024 (Z.log2 k)) as [?|_]; [|].
    { rewrite Hlog in *. case_decide; lia. }
    rewrite <- Hlog.
    destruct (Z.leb_spec 1024 (Z.log2 k + (0 + shift))) as [Hov|_]; [|done].
    intros _. rewrite Hlog in Hov. case_decide as Hc.
    + apply Hk53 in Hc as [Hq' Hr']. rewrite HT.
      specialize (Hshift ltac:(lia)).
      transitivity ((2 ^ 54 - 1) * 2 ^ (shift - 1)).
      * apply Z.mul_le_mono_nonneg_l; [by vm_compute | done].
      * rewrite Hdm, Hq', Hhalf in *. lia.
    + assert (2 ^ 1024 <= 2 ^ e) by (apply Z.pow_le_mono_r; lia).
      assert (0 < 2 ^ 970) by (by vm_compute). lia.
  - intros Hbig.
    assert (He' : 1023 <= e).
    { apply Z.log2_le_pow2; [done|].
      assert (2 ^ 1023 <= 2 ^ 1024 - 2 ^ 970) by (by vm_compute). lia. }
    rewrite <- Hlog.
    destruct (Z.leb_spec 1024 (Z.log2 k + (0 + shift))) as [_|Hno]; [done|].
    exfalso. rewrite Hlog in Hno.
    assert (e = 1023) as He1 by (case_decide; lia).
    assert (shift = 971) as Hs1 by lia.
    assert (k <> 2 ^ 53) as Hc by (case_decide; lia).
    apply Hc, Hk53. rewrite Hs1 in *.
    assert (H971 : 2 ^ 971 = 2 * 2 ^ 970) by (by vm_compute).
    assert (H54 : 2 ^ 1024 - 2 ^ 970 = (2 ^ 53 - 1) * 2 ^ 971 + 2 ^ 970)
      by (by vm_compute).
    assert (0 < 2 ^ 970) by (by vm_compute).
    assert (q = 2 ^ 53 - 1) by nia.
    split; [done|]. nia.
Qed.

(** C6 as stated fails: a value outside 0..9 is written without any
    error. *)
Lemma set_value_accepts_any_value :
  ~ (0 <= 10 <= 9)
  /\ ~ raises (set_value 0 0 zeros 10)
  /\ (set_value 0 0 zeros 10 ≫= get_cell 0 0) = Ok 10.
Proof.
  split; [lia|]. split; [|reflexivity].
  intros [e He]. vm_compute in He. discriminate.
Qed.

(** C6, amended: [set_value] has two errors and no check of the value
    against 0..9.  It raises the [AssertionError] of [get_idx] exactly
    when row or col is outside 0..8, and for in-range coordinates the
    [OverflowError] of the conversion to float64 exactly when the value
    is beyond the float range, from magnitude 2^1024 - 2^970 on; both
    reach the caller.  In every other case it returns normally. *)
Theorem set_value_raises_iff_out_of_range_or_overflow
    (row col : Z) (board : ndarray) (value : Z) :
  (set_value row col board value = Raise AssertionError
   <-> ~ in_range row col)
  /\ (set_value row col board value = Raise OverflowError
      <-> in_range row col /\ 2 ^ 1024 - 2 ^ 970 <= Z.abs value)
  /\ (returns (set_value row col board value)
      <-> in_range row col /\ Z.abs value < 2 ^ 1024 - 2 ^ 970)
  /\ (raises (set_value row col board value)
      <-> ~ in_range row col \/ 2 ^ 1024 - 2 ^ 970 <= Z.abs value).
Proof.
  pose proof (float64_of_int_overflow value) as Hov.
  destruct (decide (in_range row col)) as [H|H].
  - rewrite (set_value_converts _ _ _ _ H).
    destruct (float64_of_int value) as [v|e] eqn:Hconv.
    + assert (Z.abs value < 2 ^ 1024 - 2 ^ 970) as Hlt.
      { apply Z.nle_gt. intros Hge. by apply Hov in Hge. }
      rewrite bind_Ok. split_and!; split.
      * done.
      * done.
      * done.
      * intros [_ ?]. lia.
      * done.
      * intros _. by eexists.
      * by intros [e ?].
      * intros [?|?]; [done | lia].
    + pose proof (float64_of_int_error _ _ Hconv) as ->.
      pose proof (proj1 Hov eq_refl) as Hge.
      rewrite bind_Raise. split_and!; split.
      * done.
      * done.
      * done.
      * done.
      * by intros [b ?].
      * intros [_ ?]. lia.
      * intros _. by right.
      * intros _. by eexists.
  - rewrite (set_value_out_of_range _ _ _ _ H).
    split_and!; split.
    + done.
    + done.
    + done.
    + by intros [? _].
    + by intros [b ?].
    + by intros [? _].
    + intros _. by left.
    + intros _. by eexists.
Qed.

(** ** check_legal *)

Lemma elem_of_all_cells r c : (r, c) ∈ all_cells <-> in_range r c.
Proof.
  unfold all_cells, range, in_range. rewrite list_elem_of_bind. split.
  - intros (r' & Hc & Hr). apply list_elem_of_bind in Hc as (c' & Hrc & Hc).
    apply list_elem_of_singleton in Hrc as [= -> ->].
    apply elem_of_seqZ in Hr, Hc. lia.
  - intros [Hr Hc]. exists r. split; [|apply elem_of_seqZ; lia].
    apply list_elem_of_bind. exists c.
    split; [by apply list_elem_of_singleton | apply elem_of_seqZ; lia].
Qed.

Lemma elem_of_regions_of row col r c :
  (r, c) ∈ regions_of row col <-> in_range r c /\ same_region row col r c.
Proof.
  unfold regions_of. rewrite list_elem_of_filter, elem_of_all_cells. simpl. tauto.
Qed.

Lemma regions_of_length row col :
  in_range row col -> length (regions_of row col) = 21%nat.
Proof. intros [Hr Hc]. enum9 row; enum9 col; reflexivity. Qed.

Lemma elem_of_grid3 ab : ab ∈ grid3.
Proof. destruct ab as [[] []]; vm_compute; set_solver. Qed.

Lemma NoDup_grid3 : NoDup grid3.
Proof. apply (bool_decide_unpack _). by vm_compute. Qed.

Lemma block_index_eq r r' :
  0 <= r <= 8 -> 0 <= r' <= 8 ->
  r / 3 = r' / 3 <-> idx3_of_Z (r / 3) = idx3_of_Z (r' / 3).
Proof.
  intros Hr Hr'. enum9 r; enum9 r'; vm_compute;
    (split; intros ?; (reflexivity || discriminate)).
Qed.

Lemma flat_index_eq r r' :
  0 <= r <= 8 -> 0 <= r' <= 8 ->
  r = r' <->
  idx3_of_Z (r / 3) = idx3_of_Z (r' / 3)
  /\ idx3_of_Z (r mod 3) = idx3_of_Z (r' mod 3).
Proof.
  intros Hr Hr'. enum9 r; enum9 r'; vm_compute;
    (split; [intros ? | intros [? ?]]; (done || discriminate)).
Qed.

Lemma same_region_of_flat row col r c :
  in_range row col -> in_range r c ->
  same_region row col r c <-> same_region4 (of_flat row col) (of_flat r c).
Proof.
  intros [Hr Hc] [Hr' Hc']. unfold same_region, of_flat, same_region4.
  rewrite (block_index_eq row r), (block_index_eq col c) by done.
  rewrite (flat_index_eq row r), (flat_index_eq col c) by done.
  tauto.
Qed.

(** Counting the occurrences of the value of one listed element. *)
Lemma count_eq_nonneg v area : 0 <= count_eq v area.
Proof. unfold count_eq. lia. Qed.

Lemma count_eq_cons v x area :
  count_eq v (x :: area) = (if decide (x = v) then 1 else 0) + count_eq v area.
Proof.
  unfold count_eq. rewrite filter_cons.
  case_decide; simpl length; lia.
Qed.

Lemma count_eq_zero {A} (f : A -> Z) (xs : list A) v :
  count_eq v (f <$> xs) = 0 <-> forall y, y ∈ xs -> f y <> v.
Proof.
  induction xs as [|a xs IH].
  - split; [intros _ y Hy; inversion Hy | reflexivity].
  - rewrite fmap_cons, count_eq_cons.
    pose proof (count_eq_nonneg v (f <$> xs)).
    case_decide as Ha; split.
    + lia.
    + intros Hall. destruct (Hall a); [left | done].
    + intros Hc y Hy. apply elem_of_cons in Hy as [-> | Hy]; [done|].
      apply IH; [lia | done].
    + intros Hall.
      assert (count_eq v (f <$> xs) = 0); [|lia].
      apply IH. intros y Hy. apply Hall. by right.
Qed.

Lemma count_eq_le_1 {A} (f : A -> Z) (xs : list A) x :
  NoDup xs -> x ∈ xs ->
  (count_eq (f x) (f <$> xs) >? 1) = false
  <-> forall y, y ∈ xs -> y <> x -> f y <> f x.
Proof.
  intros Hnd Hx. rewrite Z.gtb_ltb, Z.ltb_ge.
  induction Hnd as [|a xs Ha Hnd IH]; [inversion Hx|].
  rewrite fmap_cons, count_eq_cons.
  pose proof (count_eq_nonneg (f x) (f <$> xs)) as Hnn.
  apply elem_of_cons in Hx as [-> | Hx].
  - rewrite decide_True by done.
    transitivity (count_eq (f a) (f <$> xs) = 0); [lia|].
    rewrite count_eq_zero. split.
    + intros Hall y Hy Hne. apply elem_of_cons in Hy as [-> | Hy]; [done|].
      by apply Hall.
    + intros Hall y Hy. apply Hall; [by right|]. by intros ->.
  - assert (count_eq (f x) (f <$> xs) <> 0) as Hpos.
    { rewrite count_eq_zero. intros Hall. by apply (Hall x). }
    case_decide as Hfa; split.
    + lia.
    + intros Hall. destruct (Hall a); [left | by intros -> | done].
    + intros Hc y Hy Hne. apply elem_of_cons in Hy as [-> | Hy]; [done|].
      apply IH; [done | lia | done | done].
    + intros Hall.
      assert (count_eq (f x) (f <$> xs) <= 1); [|lia].
      apply IH; [done|]. intros y Hy. apply Hall. by right.
Qed.

Lemma block_slice_le_1 board i j k l :
  (count_eq (item board (i, j, k, l)) (block_slice board i j) >? 1) = false
  <-> forall k' l', (k', l') <> (k, l) ->
        item board (i, j, k', l') <> item board (i, j, k, l).
Proof.
  pose proof (count_eq_le_1 (fun ab => item board (i, j, ab.1, ab.2))
                grid3 (k, l) NoDup_grid3 (elem_of_grid3 _)) as H.
  simpl in H. unfold block_slice, flatten2. rewrite H. split.
  - intros Hall k' l'. apply (Hall (k', l')), elem_of_grid3.
  - intros Hall [k' l'] _. apply Hall.
Qed.

Lemma row_slice_le_1 board i j k l :
  (count_eq (item board (i, j, k, l)) (row_slice board i k) >? 1) = false
  <-> forall j' l', (j', l') <> (j, l) ->
        item board (i, j', k, l') <> item board (i, j, k, l).
Proof.
  pose proof (count_eq_le_1 (fun ab => item board (i, ab.1, k, ab.2))
                grid3 (j, l) NoDup_grid3 (elem_of_grid3 _)) as H.
  simpl in H. unfold row_slice, flatten2. rewrite H. split.
  - intros Hall j' l'. apply (Hall (j', l')), elem_of_grid3.
  - intros Hall [j' l'] _. apply Hall.
Qed.

Lemma col_slice_le_1 board i j k l :
  (count_eq (item board (i, j, k, l)) (col_slice board j l) >? 1) = false
  <-> forall i' k', (i', k') <> (i, k) ->
        item board (i', j, k', l) <> item board (i, j, k, l).
Proof.
  pose proof (count_eq_le_1 (fun ab => item board (ab.1, j, ab.2, l))
                grid3 (i, k) NoDup_grid3 (elem_of_grid3 _)) as H.
  simpl in H. unfold col_slice, flatten2. rewrite H. split.
  - intros Hall i' k'. apply (Hall (i', k')), elem_of_grid3.
  - intros Hall [i' k'] _. apply Hall.
Qed.

Lemma check_legal_in_range row col board :
  in_range row col ->
  exists legal,
    check_legal row col board = Ok legal
    /\ (legal = true <-> legal4 board (of_flat row col)).
Proof.
  intros Hin. unfold check_legal, legal4.
  rewrite (get_idx_in_range _ _ Hin), bind_Ok.
  rewrite (resolve_div_mod _ _ Hin), bind_Ok.
  destruct (of_flat row col) as [[[i j] k] l].
  destruct (Z.eqb_spec (item board (i, j, k, l)) 0) as [Hz|Hz].
  { exists false. split; [done|]. split; [done | by intros [? _]]. }
  eexists. split; [reflexivity|]. simpl foldl.
  destruct (count_eq _ (col_slice _ _ _) >? 1) eqn:Ec.
  { split; [done|]. intros [_ Hall].
    apply not_false_iff_true in Ec. destruct Ec.
    apply col_slice_le_1. intros i' k' Hne. apply Hall; [congruence|].
    simpl. tauto. }
  destruct (count_eq _ (row_slice _ _ _) >? 1) eqn:Er.
  { split; [done|]. intros [_ Hall].
    apply not_false_iff_true in Er. destruct Er.
    apply row_slice_le_1. intros j' l' Hne. apply Hall; [congruence|].
    simpl. tauto. }
  destruct (count_eq _ (block_slice _ _ _) >? 1) eqn:Eb.
  { split; [done|]. intros [_ Hall].
    apply not_false_iff_true in Eb. destruct Eb.
    apply block_slice_le_1. intros k' l' Hne. apply Hall; [congruence|].
    simpl. tauto. }
  split; [intros _ | done]. split; [done|].
  intros [[[i' j'] k'] l'] Hne [[-> ->] | [[-> ->] | [-> ->]]].
  - eapply block_slice_le_1; [done | congruence].
  - eapply row_slice_le_1; [done | congruence].
  - eapply col_slice_le_1; [done | congruence].
Qed.

Lemma check_legal_out_of_range row col board :
  ~ in_range row col -> check_legal row col board = Raise AssertionError.
Proof.
  intros H. unfold check_legal. by rewrite (get_idx_out_of_range _ _ H).
Qed.

Lemma legal4_flat row col board :
  in_range row col ->
  legal4 board (of_flat row col)
  <-> cell board row col <> 0
      /\ forall r c, in_range r c -> (r, c) <> (row, col) ->
           same_region row col r c -> cell board r c <> cell board row col.
Proof.
  intros Hin. unfold legal4. rewrite (cell_in_range _ _ _ Hin).
  apply and_iff_compat_l. split.
  - intros Hall r c Hin' Hne Hsame. rewrite (cell_in_range _ _ _ Hin').
    apply Hall.
    + intros Heq. apply Hne.
      by destruct (of_flat_inj _ _ _ _ Hin' Hin Heq) as [-> ->].
    + by apply same_region_of_flat.
  - intros Hall q.
    destruct (of_flat_row_col q) as [Hin' Hq]. rewrite <- Hq.
    intros Hne Hsame.
    rewrite <- (cell_in_range _ _ _ Hin'). apply Hall; [done| |].
    + intros [= Hr Hc]. apply Hne. by rewrite Hr, Hc.
    + by apply same_region_of_flat.
Qed.

(** C2: for row and col in 0..8, [check_legal] returns false when the
    cell holds 0; otherwise, with v the value of the cell, it returns
    true exactly when no other cell of the block, the flat row or the
    flat column of the cell holds v.  In particular, on a board whose
    flat row 0 is [5,0,0,0,0,0,0,0,0], once 5 is written at (0,3) the
    check of (0,3) returns false. *)
Theorem check_legal_iff_no_other_cell :
  (forall board row col, in_range row col ->
     exists v legal,
       get_cell row col board = Ok v
       /\ check_legal row col board = Ok legal
       /\ (v = 0 -> legal = false)
       /\ (v <> 0 ->
           (legal = true <->
            forall r c, in_range r c -> (r, c) <> (row, col) ->
              same_region row col r c -> get_cell r c board <> Ok v)))
  /\ (forall board, flat_row board 0 = [5; 0; 0; 0; 0; 0; 0; 0; 0] ->
        exists board',
          set_value 0 3 board 5 = Ok board'
          /\ check_legal 0 3 board' = Ok false).
Proof.
  assert (Hgen : forall board row col, in_range row col ->
     exists legal,
       check_legal row col board = Ok legal
       /\ (legal = true <->
           cell board row col <> 0
           /\ forall r c, in_range r c -> (r, c) <> (row, col) ->
                same_region row col r c ->
                cell board r c <> cell board row col)).
  { intros board row col Hin.
    destruct (check_legal_in_range row col board Hin) as (legal & Hl & Hiff).
    exists legal. split; [done|]. by rewrite Hiff, legal4_flat. }
  split.
  - intros board row col Hin.
    destruct (Hgen board row col Hin) as (legal & Hl & Hiff).
    exists (cell board row col), legal.
    split; [by rewrite get_cell_in_range, cell_in_range|].
    split; [done|]. split.
    + intros Hz. destruct legal; [|done]. by destruct (proj1 Hiff eq_refl).
    + intros Hnz. rewrite Hiff. split.
      * intros [_ Hall] r c Hin' Hne Hsame Hget.
        apply (Hall r c Hin' Hne Hsame). unfold cell at 1. by rewrite Hget.
      * intros Hall. split; [done|]. intros r c Hin' Hne Hsame Heq.
        apply (Hall r c Hin' Hne Hsame).
        by rewrite get_cell_in_range, <- cell_in_range, Heq.
  - intros board Hrow.
    assert (in_range 0 3) as Hin by (unfold in_range; lia).
    assert (in_range 0 0) as Hin0 by (unfold in_range; lia).
    destruct (get_cell_set_value 0 3 board 5 5 Hin eq_refl) as (board' & Hs & Hv & Ho).
    exists board'. split; [done|].
    destruct (Hgen board' 0 3 Hin) as (legal & Hl & Hiff).
    rewrite Hl. f_equal. destruct legal; [|done].
    destruct (proj1 Hiff eq_refl) as [_ Hall].
    destruct (Hall 0 0 Hin0); [done | unfold same_region; tauto |].
    unfold cell. rewrite Hv, (Ho 0 0 Hin0) by done.
    assert (H0 : cell board 0 0 = 5).
    { injection Hrow as H0 _. exact H0. }
    unfold cell in H0. by rewrite H0.
Qed.

Lemma check_legal_iff_no_other_cell_witness :
  exists board',
    set_value 0 3 (store zeros (I0, I0, I0, I0) 5) 5 = Ok board'
    /\ check_legal 0 3 board' = Ok false.
Proof.
  apply (proj2 check_legal_iff_no_other_cell). reflexivity.
Defined.

(** C10: [check_legal row col] reads only the cells of the block, the
    flat row and the flat column through (row, col), 21 cells in all:
    two boards that agree on those cells get the same answer, whatever
    the other 60 cells hold. *)
Theorem check_legal_depends_on_regions (row col : Z) (b1 b2 : ndarray) :
  Forall (fun rc => get_cell rc.1 rc.2 b1 = get_cell rc.1 rc.2 b2)
         (regions_of row col) ->
  check_legal row col b1 = check_legal row col b2
  /\ (in_range row col ->
      length (regions_of row col) = 21%nat
      /\ forall r c, (r, c) ∈ regions_of row col
                     <-> in_range r c /\ same_region row col r c).
Proof.
  intros Hagree.
  split; [|intros Hin; split;
            [by apply regions_of_length | apply elem_of_regions_of]].
  destruct (decide (in_range row col)) as [Hin|Hout].
  2: { by rewrite !check_legal_out_of_range. }
  assert (Hitem : forall q, same_region4 (of_flat row col) q ->
                            item b1 q = item b2 q).
  { intros q. destruct (of_flat_row_col q) as [Hin' Heq].
    rewrite <- Heq. intros Hq.
    assert (Hrc : get_cell (row_of q) (col_of q) b1
                  = get_cell (row_of q) (col_of q) b2).
    { apply (proj1 (Forall_forall _ _) Hagree (row_of q, col_of q)).
      apply elem_of_regions_of. split; [done|].
      by apply same_region_of_flat. }
    rewrite !get_cell_in_range in Hrc by done. by injection Hrc. }
  unfold check_legal.
  rewrite (get_idx_in_range _ _ Hin), !bind_Ok.
  rewrite (resolve_div_mod _ _ Hin), !bind_Ok.
  destruct (of_flat row col) as [[[i j] k] l].
  assert (block_slice b1 i j = block_slice b2 i j) as ->.
  { apply list_fmap_ext. intros _ [k' l'] _. apply Hitem. simpl. tauto. }
  assert (row_slice b1 i k = row_slice b2 i k) as ->.
  { apply list_fmap_ext. intros _ [j' l'] _. apply Hitem. simpl. tauto. }
  assert (col_slice b1 j l = col_slice b2 j l) as ->.
  { apply list_fmap_ext. intros _ [i' k'] _. apply Hitem. simpl. tauto. }
  rewrite (Hitem (i, j, k, l)); [done | simpl; tauto].
Qed.

Lemma check_legal_depends_on_regions_witness :
  check_legal 0 0 (store zeros (I0, I0, I0, I0) 5)
  = check_legal 0 0 (store (store zeros (I0, I0, I0, I0) 5) (I1, I1, I1, I1) 5)
  /\ (in_range 0 0 ->
      length (regions_of 0 0) = 21%nat
      /\ forall r c, (r, c) ∈ regions_of 0 0
                     <-> in_range r c /\ same_region 0 0 r c).
Proof.
  apply check_legal_depends_on_regions.
  vm_compute. repeat constructor.
Defined.

(** ** hide_portion_of_board *)

Lemma round_half_even_bounds a shift M :
  0 <= shift ->
  (M * 2 ^ shift <= a -> M <= round_half_even a shift)
  /\ (a <= M * 2 ^ shift -> round_half_even a shift <= M).
Proof.
  intros Hs.
  assert (HP : 0 < 2 ^ shift) by (apply Z.pow_pos_nonneg; lia).
  pose proof (Z.div_mod a (2 ^ shift) ltac:(lia)) as Hdm.
  pose proof (Z.mod_pos_bound a (2 ^ shift) HP) as Hr.
  assert (Hrhe : round_half_even a shift = a / 2 ^ shift
                 \/ (round_half_even a shift = a / 2 ^ shift + 1
                     /\ 0 < a mod 2 ^ shift)).
  { unfold round_half_even.
    destruct (Z.ltb_spec (2 * (a mod 2 ^ shift)) (2 ^ shift)); [by left|].
    destruct (Z.ltb_spec (2 ^ shift) (2 * (a mod 2 ^ shift))); [right; lia|].
    destruct (Z.even _); [by left | right; lia]. }
  set (q := a / 2 ^ shift) in *. set (r := a mod 2 ^ shift) in *.
  set (P := 2 ^ shift) in *.
  split; intros HM.
  - assert (M <= q) by nia. lia.
  - destruct Hrhe as [->|[-> Hpos]]; nia.
Qed.



Lemma randint_0_9_length rng n : length (randint_0_9 rng n) = n.
Proof. unfold randint_0_9. by rewrite length_fmap, length_seq. Qed.

Lemma randint_0_9_in_range rng n :
  Forall (fun rc => in_range rc.1 rc.2) (randint_0_9 rng n).
Proof.
  unfold randint_0_9. apply Forall_fmap, Forall_forall. intros i _.
  unfold in_range. simpl.
  pose proof (Nat.mod_upper_bound (rng (2 * i)%nat) 9).
  pose proof (Nat.mod_upper_bound (rng (2 * i + 1)%nat) 9). lia.
Qed.

Lemma hide_loop (ind : list (Z * Z)) (m k : nat) (board : ndarray) :
  Forall (fun rc => in_range rc.1 rc.2) ind ->
  (k + m <= length ind)%nat ->
  for_loop (seq k m)
    (fun i hidden_board =>
       match ind !! i with
       | Some (r, c) => set_value r c hidden_board 0
       | None => Raise IndexError
       end) board
  = Ok (zero_cells board (take m (drop k ind))).
Proof.
  intros Hind. revert k board. induction m as [|m IH]; intros k board Hlen.
  { reflexivity. }
  destruct (lookup_lt_is_Some_2 ind k) as [[r c] Hk]; [lia|].
  simpl. rewrite Hk.
  assert (in_range r c) as Hin.
  { apply (Forall_lookup_1 _ _ _ _ Hind Hk). }
  rewrite (set_value_zero _ _ _ Hin), bind_Ok.
  rewrite IH by lia.
  by rewrite (drop_S _ _ _ Hk).
Qed.

Lemma item_zero_cells board cells q :
  item (zero_cells board cells) q
  = if decide (q ∈ (fun rc => of_flat rc.1 rc.2) <$> cells) then 0
    else item board q.
Proof.
  unfold zero_cells. revert board.
  induction cells as [|[r c] cells IH]; intros board.
  { cbn [foldl]. rewrite fmap_nil. case_decide; [set_solver | done]. }
  cbn [foldl]. rewrite IH, item_store, fmap_cons. cbn [fst snd].
  destruct (decide (q ∈ (fun rc => of_flat rc.1 rc.2) <$> cells)) as [Hel|Hel].
  { rewrite decide_True; [done | by right]. }
  destruct (decide (of_flat r c = q)) as [<-|Hne].
  - rewrite decide_True; [done | left].
  - rewrite decide_False; [done|].
    intros [?|?]%elem_of_cons; [congruence | done].
Qed.





(** Once the count is known and the draws are allocated, the loop of
    the masker never fails. *)
Lemma hide_returns max_rows rng board difficulty n :
  num_to_hide difficulty = Ok n ->
  0 <= n -> n < 2 ^ 59 -> n <= max_rows ->
  hide_portion_of_board max_rows rng board difficulty
  = Ok (zero_cells board (randint_0_9 rng (Z.to_nat n))).
Proof.
  intros Hn H0 H59 Hmax. unfold hide_portion_of_board, np_random_randint_0_9.
  rewrite Hn, bind_Ok.
  destruct (Z.ltb_spec n 0) as [?|_]; [lia|].
  destruct (Z.leb_spec (2 ^ 59) n) as [?|_]; [lia|].
  destruct (Z.ltb_spec max_rows n) as [?|_]; [lia|].
  rewrite bind_Ok.
  rewrite (hide_loop _ (Z.to_nat n) 0 board).
  - by rewrite drop_0, <- (randint_0_9_length rng) at 1
      by done; rewrite firstn_all.
  - apply randint_0_9_in_range.
  - rewrite randint_0_9_length. lia.
Qed.




(** ** makeBoard: positions and the rollback loop *)

Lemma position_of_flat row col :
  in_range row col -> position (of_flat row col) = 9 * row + col.
Proof.
  intros H. unfold position.
  by destruct (row_col_of_flat _ _ H) as [-> ->].
Qed.

Lemma position_bounds q : 0 <= position q <= 80.
Proof. destruct q as [[[[] []] []] []]; vm_compute; split; discriminate. Qed.

Lemma position_inj q q' : position q = position q' -> q = q'.
Proof.
  destruct (of_flat_row_col q) as [[Hr Hc] Hq].
  destruct (of_flat_row_col q') as [[Hr' Hc'] Hq'].
  unfold position. intros Heq.
  rewrite <- Hq, <- Hq'. f_equal; lia.
Qed.

Lemma same_region4_sym p q : same_region4 p q -> same_region4 q p.
Proof.
  destruct p as [[[i j] k] l], q as [[[i' j'] k'] l']. simpl.
  intros [[-> ->] | [[-> ->] | [-> ->]]]; tauto.
Qed.

Lemma rollback_body_eq i row col board :
  rollback_body i (row, col, board)
  = (b ← set_value row col board 0;
     if col >? 0 then Ok (row, col - 1, b) else Ok (row - 1, 8, b)).
Proof. reflexivity. Qed.

Lemma consistent_except_weaken board skip :
  consistent_except board None -> consistent_except board skip.
Proof. intros H q q' _ _. by apply H. Qed.

Lemma rollback_loop {A} (xs : list A) (body_ix : A -> Z) row col board :
  in_range row col ->
  Z.of_nat (length xs) <= 9 * row + col ->
  exists row' col' board',
    for_loop xs (fun x => rollback_body (body_ix x)) (row, col, board)
      = Ok (row', col', board')
    /\ in_range row' col'
    /\ 9 * row' + col' = 9 * row + col - Z.of_nat (length xs)
    /\ forall q,
         item board' q
         = if decide (9 * row' + col' < position q <= 9 * row + col)
           then 0 else item board q.
Proof.
  revert row col board.
  induction xs as [|x xs IH]; intros row col board Hin Hlen.
  { exists row, col, board. split_and!; [done | done | simpl; lia |].
    intros q. by rewrite decide_False by lia. }
  cbn [for_loop]. rewrite rollback_body_eq.
  rewrite (set_value_zero _ _ _ Hin), bind_Ok.
  simpl length in Hlen.
  set (board1 := store board (of_flat row col) 0).
  assert (Hitem1 : forall q,
            item board1 q
            = if decide (position q = 9 * row + col) then 0 else item board q).
  { intros q. unfold board1. rewrite item_store.
    rewrite <- (position_of_flat _ _ Hin).
    destruct (decide (of_flat row col = q)) as [->|Hne].
    - by rewrite decide_True.
    - rewrite decide_False; [done|]. intros Heq. by apply position_inj in Heq. }
  destruct Hin as [Hr Hc].
  destruct (Z.gtb_spec col 0) as [Hpos|Hzero]; rewrite bind_Ok.
  - destruct (IH row (col - 1) board1) as (row' & col' & board' & Hl & Hin' & Hp & Hitem);
      [unfold in_range; lia | lia |].
    exists row', col', board'. split_and!; [done | done | simpl length; lia |].
    intros q. rewrite Hitem, Hitem1.
    repeat case_decide; (done || lia).
  - assert (col = 0) as -> by lia.
    destruct (IH (row - 1) 8 board1) as (row' & col' & board' & Hl & Hin' & Hp & Hitem);
      [unfold in_range; lia | lia |].
    exists row', col', board'. split_and!; [done | done | simpl length; lia |].
    intros q. rewrite Hitem, Hitem1.
    repeat case_decide; (done || lia).
Qed.

Lemma range_length n : Z.of_nat (length (range n)) = Z.max 0 n.
Proof. unfold range. rewrite length_seqZ. lia. Qed.

(** The rollback of [makeBoard] from an in-range cursor. *)
Lemma rollback_in_range rollback_factor row col board :
  in_range row col ->
  exists row' col' board',
    for_loop (range (Z.min rollback_factor (col + row * 8))) rollback_body
             (row, col, board)
      = Ok (row', col', board')
    /\ in_range row' col'
    /\ 9 * row' + col'
       = 9 * row + col - Z.max 0 (Z.min rollback_factor (col + row * 8))
    /\ forall q,
         item board' q
         = if decide (9 * row' + col' < position q <= 9 * row + col)
           then 0 else item board q.
Proof.
  intros Hin.
  destruct (rollback_loop (range (Z.min rollback_factor (col + row * 8)))
              (fun x => x) row col board Hin)
    as (row' & col' & board' & Hl & Hin' & Hp & Hitem).
  { rewrite range_length. destruct Hin. lia. }
  exists row', col', board'. rewrite range_length in Hp. done.
Qed.

(** ** makeBoard: what one step needs *)

Lemma list_remove_elem x l :
  x ∈ l ->
  exists l', list_remove x l = Ok l' /\ forall y, y ∈ l' -> y ∈ l.
Proof.
  induction l as [|a l IH]; intros Hx; [inversion Hx|].
  simpl. destruct (decide (a = x)) as [->|Hne].
  - exists l. split; [done|]. intros y Hy. by right.
  - apply elem_of_cons in Hx as [->|Hx]; [done|].
    destruct (IH Hx) as (l' & -> & Hsub). rewrite bind_Ok.
    exists (a :: l'). split; [done|].
    intros y [->|Hy]%elem_of_cons; [left | right; by apply Hsub].
Qed.

Lemma choice_elem r l :
  l <> [] -> exists v, choice r l = Ok v /\ v ∈ l.
Proof.
  intros Hl. unfold choice.
  destruct (lookup_lt_is_Some_2 l (r mod length l)%nat) as [v Hv].
  { apply Nat.mod_upper_bound. by destruct l. }
  rewrite Hv. exists v. split; [done|]. by eapply list_elem_of_lookup_2.
Qed.

Lemma pool_ok_initial : pool_ok (range 10) 0.
Proof.
  split.
  - right. apply elem_of_seqZ. lia.
  - apply Forall_forall. intros v Hv%elem_of_seqZ. lia.
Qed.

(** An accepted cell joins the consistent part of the board. *)
Lemma accept_cell board row col :
  in_range row col ->
  legal4 board (of_flat row col) ->
  filled_before board (9 * row + col) ->
  consistent_except board (Some (of_flat row col)) ->
  filled_before board (9 * row + (col + 1))
  /\ consistent_except board None.
Proof.
  intros Hin [Hnz Hall] Hfill Hcons. split.
  - intros q Hq.
    destruct (decide (position q = 9 * row + col)) as [Heq|Hne].
    + rewrite <- (position_of_flat _ _ Hin) in Heq.
      apply position_inj in Heq. by subst q.
    + apply Hfill. lia.
  - intros q q' _ _ Hne Hsame Hq.
    destruct (decide (q = of_flat row col)) as [->|Hqp].
    { apply not_eq_sym, Hall; [congruence | done]. }
    destruct (decide (q' = of_flat row col)) as [->|Hqp'].
    { apply Hall; [done | by apply same_region4_sym]. }
    apply Hcons; congruence.
Qed.

(** Writing the cell under the cursor disturbs nothing else. *)
Lemma write_cursor board row col v :
  in_range row col ->
  0 <= v <= 9 ->
  digits_only board ->
  filled_before board (9 * row + col) ->
  consistent_except board (Some (of_flat row col)) ->
  digits_only (store board (of_flat row col) v)
  /\ filled_before (store board (of_flat row col) v) (9 * row + col)
  /\ consistent_except (store board (of_flat row col) v)
       (Some (of_flat row col)).
Proof.
  intros Hin Hv Hdig Hfill Hcons. split_and!.
  - intros q. rewrite item_store. by case_decide.
  - intros q Hq. rewrite item_store_ne; [by apply Hfill|].
    intros <-. rewrite (position_of_flat _ _ Hin) in Hq. lia.
  - intros q q' Hq Hq' Hne Hsame.
    rewrite !item_store_ne by congruence. by apply Hcons.
Qed.

(** The board after a rollback is again consistent around the cursor. *)
Lemma after_rollback board board' row col row' col' :
  in_range row col -> in_range row' col' ->
  9 * row' + col' <= 9 * row + col ->
  (forall q,
     item board' q
     = if decide (9 * row' + col' < position q <= 9 * row + col)
       then 0 else item board q) ->
  digits_only board ->
  filled_before board (9 * row + col) ->
  consistent_except board (Some (of_flat row col)) ->
  digits_only board'
  /\ filled_before board' (9 * row' + col')
  /\ consistent_except board' (Some (of_flat row' col')).
Proof.
  intros Hin Hin' Hle Hitem Hdig Hfill Hcons. split_and!.
  - intros q. rewrite Hitem. case_decide; [lia | apply Hdig].
  - intros q Hq. rewrite Hitem, decide_False by lia. apply Hfill. lia.
  - assert (Hcur : forall q, Some q <> Some (of_flat row' col') ->
                             item board' q <> 0 ->
                             item board' q = item board q
                             /\ q <> of_flat row col).
    { intros q Hq. rewrite Hitem. case_decide as Hpos; [done|].
      intros _. split; [done|]. intros ->.
      rewrite (position_of_flat _ _ Hin) in Hpos.
      apply Hq. f_equal. apply position_inj.
      rewrite !position_of_flat by done. lia. }
    intros q q' Hq Hq' Hne Hsame Hnz.
    destruct (Hcur q Hq Hnz) as [Heq Hqp].
    destruct (decide (item board' q' = 0)) as [Hz|Hnz'].
    { by rewrite Hz. }
    destruct (Hcur q' Hq' Hnz') as [Heq' Hqp'].
    rewrite Heq, Heq'. apply Hcons; congruence.
Qed.

(** ** makeBoard: a filled consistent board is a full board *)

Lemma count_eq_Permutation v (l k : list Z) :
  l ≡ₚ k -> count_eq v l = count_eq v k.
Proof. intros H. unfold count_eq. by rewrite H. Qed.

Lemma each_digit_once_intro (area : list Z) :
  length area = 9%nat ->
  NoDup area ->
  Forall (fun v => 1 <= v <= 9) area ->
  each_digit_once area = true.
Proof.
  intros Hlen Hnd Hdig.
  assert (area ≡ₚ seqZ 1 9) as Hperm.
  { apply submseteq_length_Permutation.
    - apply NoDup_submseteq; [done|]. intros v Hv. apply elem_of_seqZ.
      pose proof (proj1 (Forall_forall _ _) Hdig v Hv). simpl in *. lia.
    - rewrite Hlen. reflexivity. }
  unfold each_digit_once. apply forallb_forall. intros d Hd.
  rewrite (count_eq_Permutation _ _ _ Hperm).
  vm_compute in Hd. intuition (subst; reflexivity).
Qed.

Lemma slice_digit_once board (f : idx3 * idx3 -> pos4) :
  (forall ab ab', ab <> ab' ->
     f ab <> f ab' /\ same_region4 (f ab) (f ab')) ->
  digits_only board ->
  filled_before board 81 ->
  consistent_except board None ->
  each_digit_once ((fun ab => item board (f ab)) <$> grid3) = true.
Proof.
  intros Hf Hdig Hfill Hcons.
  assert (Hnz : forall q, item board q <> 0).
  { intros q. apply Hfill. pose proof (position_bounds q). lia. }
  apply each_digit_once_intro.
  - by rewrite length_fmap.
  - apply NoDup_fmap_2_strong; [|apply NoDup_grid3].
    intros ab ab' _ _ Heq. destruct (decide (ab = ab')) as [|Hne]; [done|].
    destruct (Hf ab ab' Hne) as [Hne' Hsame].
    by destruct (Hcons (f ab) (f ab')).
  - apply Forall_fmap, Forall_forall. intros ab _. simpl.
    pose proof (Hdig (f ab)). pose proof (Hnz (f ab)). lia.
Qed.

Lemma flat_row_slice board r :
  0 <= r <= 8 ->
  flat_row board r
  = row_slice board (idx3_of_Z (r / 3)) (idx3_of_Z (r mod 3)).
Proof. intros Hr. enum9 r; reflexivity. Qed.

Lemma flat_col_slice board c :
  0 <= c <= 8 ->
  flat_col board c
  = col_slice board (idx3_of_Z (c / 3)) (idx3_of_Z (c mod 3)).
Proof. intros Hc. enum9 c; reflexivity. Qed.

Lemma block_slice_flat board br bc :
  0 <= br <= 2 -> 0 <= bc <= 2 ->
  block board br bc = block_slice board (idx3_of_Z br) (idx3_of_Z bc).
Proof. intros Hr Hc. enum3 br; enum3 bc; reflexivity. Qed.

Lemma full_board_intro board :
  digits_only board ->
  filled_before board 81 ->
  consistent_except board None ->
  full_board board = true.
Proof.
  intros Hdig Hfill Hcons. unfold full_board.
  rewrite !andb_true_iff. split_and!.
  - apply forallb_forall. intros r Hr%list_elem_of_In%elem_of_seqZ.
    rewrite flat_row_slice by lia.
    apply (slice_digit_once board
             (fun ab => (idx3_of_Z (r / 3), ab.1, idx3_of_Z (r mod 3), ab.2)));
      [|done..].
    intros [j l] [j' l'] Hne. simpl. split; [congruence | tauto].
  - apply forallb_forall. intros c Hc%list_elem_of_In%elem_of_seqZ.
    rewrite flat_col_slice by lia.
    apply (slice_digit_once board
             (fun ab => (ab.1, idx3_of_Z (c / 3), ab.2, idx3_of_Z (c mod 3))));
      [|done..].
    intros [i k] [i' k'] Hne. simpl. split; [congruence | tauto].
  - apply forallb_forall. intros br Hbr%list_elem_of_In%elem_of_seqZ.
    apply forallb_forall. intros bc Hbc%list_elem_of_In%elem_of_seqZ.
    rewrite block_slice_flat by lia.
    apply (slice_digit_once board
             (fun ab => (idx3_of_Z br, idx3_of_Z bc, ab.1, ab.2)));
      [|done..].
    intros [k l] [k' l'] Hne. simpl. split; [congruence | tauto].
  - apply forallb_forall.
    intros [r c] Hrc%list_elem_of_In%elem_of_all_cells. simpl.
    rewrite (cell_in_range _ _ _ Hrc).
    apply negb_true_iff, Z.eqb_neq, Hfill.
    pose proof (position_bounds (of_flat r c)). lia.
Qed.

Lemma inv_initial : inv initial.
Proof.
  unfold inv, initial, cursor_ok. simpl. split_and!; try lia.
  - intros q. by destruct q as [[[[] []] []] []].
  - intros q Hq. pose proof (position_bounds q). lia.
  - intros q q' _ _ _ _ Hq. by destruct q as [[[[] []] []] []].
Qed.

(** ** makeBoard: the invariant along a run *)

Section Run.

Variable rollback_factor : Z.
Variable rng : nat -> nat.

Lemma step_outer row col board drawn :
  step rollback_factor rng (State row col board OuterWhile drawn)
  = if row <? 3 * 3
    then Ok (Continue (State row col board InnerWhile drawn))
    else Ok (Return board).
Proof. reflexivity. Qed.

Lemma step_inner row col board drawn :
  step rollback_factor rng (State row col board InnerWhile drawn)
  = if col <? 3 * 3
    then Ok (Continue (State row col board (CellWhile (range 10) 0) drawn))
    else Ok (Continue (State (row + 1) 0 board OuterWhile drawn)).
Proof. reflexivity. Qed.

Lemma step_cell_legal row col board pool val drawn :
  check_legal row col board = Ok true ->
  step rollback_factor rng (State row col board (CellWhile pool val) drawn)
  = Ok (Continue (State row (col + 1) board InnerWhile drawn)).
Proof. intros H. simpl. by rewrite H. Qed.

Lemma step_cell_rollback row col board val drawn :
  check_legal row col board = Ok false ->
  step rollback_factor rng (State row col board (CellWhile [] val) drawn)
  = ('(row', col', board') ←
       for_loop (range (Z.min rollback_factor (col + row * 8)))
                rollback_body (row, col, board);
     Ok (Continue (State row' col' board' (CellWhile (range 10) 0) drawn))).
Proof. intros H. simpl. by rewrite H. Qed.

Lemma step_cell_try row col board x pool val drawn :
  check_legal row col board = Ok false ->
  step rollback_factor rng
       (State row col board (CellWhile (x :: pool) val) drawn)
  = (pool' ← list_remove val (x :: pool);
     if Z.of_nat (length pool') =? 0
     then Ok (Continue (State row col board (CellWhile pool' val) drawn))
     else
       v ← choice (rng drawn) pool';
       board' ← set_value row col board v;
       Ok (Continue (State row col board' (CellWhile pool' v) (S drawn)))).
Proof. intros H. cbn -[list_remove]. by rewrite H. Qed.

Lemma step_inv s :
  inv s ->
  exists o, step rollback_factor rng s = Ok o /\ outcome_ok o.
Proof.
  destruct s as [row col board ctl drawn].
  intros (Hcur & Hdig & Hfill & Hctl). unfold cursor_ok in Hcur.
  simpl in Hcur, Hdig, Hfill, Hctl. destruct ctl as [| |pool val].
  - destruct Hcur as [Hr ->]. rewrite step_outer.
    destruct (Z.ltb_spec row (3 * 3)) as [Hlt|Hge];
      (eexists; split; [reflexivity|]).
    + unfold outcome_ok, inv, cursor_ok. simpl. split_and!; (done || lia).
    + simpl. apply full_board_intro; [done| |done].
      by replace 81 with (9 * row + 0) by lia.
  - destruct Hcur as [Hr Hc]. rewrite step_inner.
    destruct (Z.ltb_spec col (3 * 3)) as [Hlt|Hge];
      (eexists; split; [reflexivity|]).
    + unfold outcome_ok, inv, cursor_ok, in_range. simpl.
      split_and!; try (done || lia).
      * by apply consistent_except_weaken.
      * apply pool_ok_initial.
    + unfold outcome_ok, inv, cursor_ok. simpl. split_and!; try (done || lia).
      by replace (9 * (row + 1) + 0) with (9 * row + col) by lia.
  - destruct Hctl as [Hcons Hpool].
    destruct (check_legal_in_range row col board Hcur) as (legal & Hl & Hiff).
    destruct legal.
    { rewrite (step_cell_legal _ _ _ _ _ _ Hl).
      eexists; split; [reflexivity|].
      destruct (accept_cell board row col Hcur (proj1 Hiff eq_refl) Hfill Hcons)
        as [Hfill' Hcons'].
      unfold outcome_ok, inv, cursor_ok. simpl. destruct Hcur.
      split_and!; (done || lia). }
    destruct pool as [|x pool].
    { rewrite (step_cell_rollback _ _ _ _ _ Hl).
      destruct (rollback_in_range rollback_factor row col board Hcur)
        as (row' & col' & board' & -> & Hin' & Hp & Hitem).
      rewrite bind_Ok. eexists; split; [reflexivity|].
      destruct (after_rollback board board' row col row' col')
        as (Hdig' & Hfill' & Hcons'); try done; [lia|].
      unfold outcome_ok, inv, cursor_ok. simpl.
      split_and!; try done. apply pool_ok_initial. }
    rewrite (step_cell_try _ _ _ _ _ _ _ Hl).
    destruct Hpool as [[?|Hval] Hrange]; [done|].
    destruct (list_remove_elem val (x :: pool) Hval) as (pool' & -> & Hsub).
    rewrite bind_Ok.
    assert (Hrange' : Forall (fun v => 0 <= v <= 9) pool').
    { apply Forall_forall. intros v Hv%Hsub.
      by apply (proj1 (Forall_forall _ _) Hrange). }
    destruct pool' as [|y pool'].
    { eexists; split; [reflexivity|].
      unfold outcome_ok, inv, cursor_ok, pool_ok. simpl.
      split_and!; try done. by left. }
    destruct (choice_elem (rng drawn) (y :: pool')) as (v & Hv & Hel); [done|].
    replace (Z.of_nat (length (y :: pool')) =? 0) with false
      by (symmetry; apply Z.eqb_neq; simpl length; lia).
    assert (Hvd : 0 <= v <= 9)
      by (by apply (proj1 (Forall_forall _ _) Hrange')).
    rewrite Hv, bind_Ok.
    rewrite (set_value_in_range _ _ _ _ Hcur (float_exact_digit _ Hvd)), bind_Ok.
    eexists; split; [reflexivity|].
    destruct (write_cursor board row col v) as (Hdig' & Hfill' & Hcons');
      try done.
    unfold outcome_ok, inv, cursor_ok, pool_ok. simpl.
    split_and!; try done. by right.
Qed.

Lemma steps_inv n s :
  inv s ->
  exists o, steps rollback_factor rng n s = Ok o /\ outcome_ok o.
Proof.
  revert s. induction n as [|n IH]; intros s Hs.
  { by exists (Continue s). }
  destruct (step_inv s Hs) as (o & Ho & Hok).
  cbn [steps]. rewrite Ho, bind_Ok. destruct o as [s'|board].
  - by apply IH.
  - by exists (Return board).
Qed.

Lemma makeBoard_returns_full_board fuel board :
  makeBoard rollback_factor rng fuel = Ok (Some board) ->
  full_board board = true.
Proof.
  unfold makeBoard.
  destruct (steps_inv fuel initial inv_initial)
    as (o & -> & Hok).
  rewrite bind_Ok. destruct o; [done|]. by intros [= <-].
Qed.

Lemma steps_add a b s :
  steps rollback_factor rng (a + b) s
  = (o ← steps rollback_factor rng a s;
     match o with
     | Continue s' => steps rollback_factor rng b s'
     | Return board => Ok (Return board)
     end).
Proof.
  revert s. induction a as [|a IH]; intros s; [done|].
  cbn [Nat.add steps].
  destruct (step rollback_factor rng s) as [[s'|board]|e]; [|done..].
  rewrite !bind_Ok. apply IH.
Qed.

Lemma makeBoard_mono fuel fuel' board :
  (fuel <= fuel')%nat ->
  makeBoard rollback_factor rng fuel = Ok (Some board) ->
  makeBoard rollback_factor rng fuel' = Ok (Some board).
Proof.
  intros Hle. replace fuel' with (fuel + (fuel' - fuel))%nat by lia.
  unfold makeBoard. rewrite steps_add.
  destruct (steps rollback_factor rng fuel initial) as [[s|b]|e]; try done.
Qed.

End Run.

(** ** makeBoard: two particular runs *)

Lemma makeBoard_lucky rollback_factor :
  makeBoard rollback_factor lucky_rng 262 = Ok (Some solved_board).
Proof. vm_compute. reflexivity. Qed.

Lemma stuck_rng_shift d k :
  (8 <= d)%nat -> stuck_rng (d + 16 * k) = stuck_rng d.
Proof.
  intros Hd. unfold stuck_rng.
  destruct (Nat.ltb_spec (d + 16 * k) 8) as [?|_]; [lia|].
  destruct (Nat.ltb_spec d 8) as [?|_]; [lia|].
  replace (d + 16 * k - 8)%nat with ((d - 8) + k * 16)%nat by lia.
  by rewrite Nat.Div0.mod_add.
Qed.

Lemma shift_drawn_0 s : shift_drawn 0 s = s.
Proof. destruct s. unfold shift_drawn. simpl. f_equal. lia. Qed.

Lemma shift_drawn_shift k k' s :
  shift_drawn k (shift_drawn k' s) = shift_drawn (k' + k) s.
Proof. destruct s. unfold shift_drawn. simpl. f_equal. lia. Qed.

(** A step reads the draw counter only through the stream. *)
Lemma step_shift k s :
  (8 <= drawn s)%nat ->
  step 8 stuck_rng (shift_drawn k s)
  = match step 8 stuck_rng s with
    | Ok (Continue s') => Ok (Continue (shift_drawn k s'))
    | r => r
    end.
Proof.
  destruct s as [row col board ctl d]. unfold shift_drawn. simpl drawn.
  cbn [row_idx col_idx init_board at_loop]. intros Hd.
  destruct ctl as [| |pool val].
  - rewrite !step_outer. by destruct (row <? 3 * 3).
  - rewrite !step_inner. by destruct (col <? 3 * 3).
  - destruct (check_legal row col board) as [[|]|e] eqn:E.
    + by rewrite !(step_cell_legal _ _ _ _ _ _ _ _ E).
    + destruct pool as [|x pool].
      * rewrite !(step_cell_rollback _ _ _ _ _ _ _ E).
        by destruct (for_loop _ _ _) as [[[r c] b]|e].
      * rewrite !(step_cell_try _ _ _ _ _ _ _ _ _ E).
        destruct (list_remove val (x :: pool)) as [pool'|e]; [|done].
        rewrite !bind_Ok.
        destruct (Z.of_nat (length pool') =? 0); [done|].
        rewrite (stuck_rng_shift _ _ Hd).
        destruct (choice (stuck_rng d) pool') as [v|e]; [|done].
        rewrite !bind_Ok.
        by destruct (set_value row col board v) as [b|e].
    + unfold step. by rewrite E.
Qed.

Lemma cycle_closed_true : cycle_closed = true.
Proof. vm_compute. reflexivity. Qed.

Lemma stuck_prefix : steps 8 stuck_rng 60 initial = Ok (Continue stuck_start).
Proof. vm_compute. reflexivity. Qed.

Lemma stuck_start_in_cycle : in_cycle stuck_start.
Proof.
  exists 0%nat, stuck_start. split; [|by rewrite shift_drawn_0].
  apply (bool_decide_unpack _). by vm_compute.
Qed.

Lemma in_cycle_step s :
  in_cycle s ->
  exists s', step 8 stuck_rng s = Ok (Continue s') /\ in_cycle s'.
Proof.
  intros (k & s0 & Hs0 & ->).
  pose proof cycle_closed_true as Hclosed. unfold cycle_closed in Hclosed.
  rewrite forallb_forall in Hclosed.
  specialize (Hclosed s0 (proj1 (list_elem_of_In _ _) Hs0)).
  apply andb_true_iff in Hclosed as [Hd%bool_decide_eq_true_1 Hstep].
  rewrite (step_shift _ _ Hd).
  destruct (step 8 stuck_rng s0) as [[s1|b]|e]; [|done..].
  exists (shift_drawn k s1). split; [done|].
  apply orb_true_iff in Hstep
    as [Hin%bool_decide_eq_true_1 | ->%bool_decide_eq_true_1].
  - by exists k, s1.
  - exists (1 + k)%nat, stuck_start. split; [|apply shift_drawn_shift].
    apply (bool_decide_unpack _). by vm_compute.
Qed.

Lemma in_cycle_steps n s :
  in_cycle s ->
  exists s', steps 8 stuck_rng n s = Ok (Continue s') /\ in_cycle s'.
Proof.
  revert s. induction n as [|n IH]; intros s Hs; [by exists s|].
  destruct (in_cycle_step s Hs) as (s' & Hstep & Hs').
  cbn [steps]. rewrite Hstep, bind_Ok. by apply IH.
Qed.

Lemma stuck_never_returns n :
  exists s, steps 8 stuck_rng n initial = Ok (Continue s).
Proof.
  destruct (decide (n <= 60)%nat) as [Hle|Hgt].
  - pose proof stuck_prefix as Hp.
    replace 60%nat with (n + (60 - n))%nat in Hp by lia.
    rewrite steps_add in Hp.
    destruct (steps 8 stuck_rng n initial) as [[s|b]|e]; [by exists s|done..].
  - replace n with (60 + (n - 60))%nat by lia.
    rewrite steps_add, stuck_prefix, bind_Ok.
    destruct (in_cycle_steps (n - 60) stuck_start stuck_start_in_cycle)
      as (s & Hs & _).
    by exists s.
Qed.

(** ** makeBoard: the claims *)

Lemma each_digit_once_iff area :
  each_digit_once area = true
  <-> forall d, 1 <= d <= 9 -> count_eq d area = 1.
Proof.
  unfold each_digit_once. rewrite forallb_forall. split.
  - intros H d Hd. apply Z.eqb_eq, H, list_elem_of_In, elem_of_seqZ. lia.
  - intros H d Hd%list_elem_of_In%elem_of_seqZ. apply Z.eqb_eq, H. lia.
Qed.

Lemma full_board_iff board :
  full_board board = true
  <-> (forall r d, 0 <= r <= 8 -> 1 <= d <= 9 ->
         count_eq d (flat_row board r) = 1)
      /\ (forall c d, 0 <= c <= 8 -> 1 <= d <= 9 ->
            count_eq d (flat_col board c) = 1)
      /\ (forall br bc d, 0 <= br <= 2 -> 0 <= bc <= 2 -> 1 <= d <= 9 ->
            count_eq d (block board br bc) = 1)
      /\ (forall r c, in_range r c -> get_cell r c board <> Ok 0).
Proof.
  unfold full_board. rewrite !andb_true_iff, !forallb_forall.
  assert (Hseq : forall n x, In x (range n) <-> 0 <= x < n).
  { intros n x. unfold range. rewrite <- list_elem_of_In, elem_of_seqZ. lia. }
  split.
  - intros [[[Hr Hc] Hb] Hz]. split_and!.
    + intros r d Hr' Hd. apply each_digit_once_iff; [|done].
      apply Hr, Hseq. lia.
    + intros c d Hc' Hd. apply each_digit_once_iff; [|done].
      apply Hc, Hseq. lia.
    + intros br bc d Hbr Hbc Hd. apply each_digit_once_iff; [|done].
      specialize (Hb br (proj2 (Hseq 3 br) ltac:(lia))).
      rewrite forallb_forall in Hb. apply Hb, Hseq. lia.
    + intros r c Hin Hget.
      specialize (Hz (r, c)
                    (proj1 (list_elem_of_In _ _) (proj2 (elem_of_all_cells r c) Hin))).
      simpl in Hz. unfold cell in Hz. by rewrite Hget in Hz.
  - intros (Hr & Hc & Hb & Hz). split_and!.
    + intros r Hr'%Hseq. apply each_digit_once_iff. intros d Hd.
      apply Hr; lia.
    + intros c Hc'%Hseq. apply each_digit_once_iff. intros d Hd.
      apply Hc; lia.
    + intros br Hbr%Hseq. apply forallb_forall. intros bc Hbc%Hseq.
      apply each_digit_once_iff. intros d Hd. apply Hb; lia.
    + intros [r c] Hin%list_elem_of_In%elem_of_all_cells. simpl.
      apply negb_true_iff, Z.eqb_neq. intros Hz'.
      apply (Hz r c Hin).
      by rewrite get_cell_in_range, <- cell_in_range, Hz'.
Qed.

(** C1: every board returned by [makeBoard] satisfies the full-board
    invariant: each flat row, each flat column and each 3x3 block
    contains each digit 1..9 exactly once, and no cell is zero. *)
Theorem makeBoard_full_board
    (rollback_factor : Z) (rng : nat -> nat) (fuel : nat) (board : ndarray) :
  makeBoard rollback_factor rng fuel = Ok (Some board) ->
  full_board board = true
  /\ (forall r d, 0 <= r <= 8 -> 1 <= d <= 9 ->
        count_eq d (flat_row board r) = 1)
  /\ (forall c d, 0 <= c <= 8 -> 1 <= d <= 9 ->
        count_eq d (flat_col board c) = 1)
  /\ (forall br bc d, 0 <= br <= 2 -> 0 <= bc <= 2 -> 1 <= d <= 9 ->
        count_eq d (block board br bc) = 1)
  /\ (forall r c, in_range r c -> get_cell r c board <> Ok 0).
Proof.
  intros Hrun.
  pose proof (makeBoard_returns_full_board _ _ _ _ Hrun) as Hfull.
  split; [done|]. by apply full_board_iff.
Qed.

Lemma makeBoard_full_board_witness :
  full_board solved_board = true
  /\ (forall r d, 0 <= r <= 8 -> 1 <= d <= 9 ->
        count_eq d (flat_row solved_board r) = 1)
  /\ (forall c d, 0 <= c <= 8 -> 1 <= d <= 9 ->
        count_eq d (flat_col solved_board c) = 1)
  /\ (forall br bc d, 0 <= br <= 2 -> 0 <= bc <= 2 -> 1 <= d <= 9 ->
        count_eq d (block solved_board br bc) = 1)
  /\ (forall r c, in_range r c -> get_cell r c solved_board <> Ok 0).
Proof.
  apply (makeBoard_full_board 8 lucky_rng 262 solved_board).
  vm_compute. reflexivity.
Defined.

(** C8 as stated fails: the loop counters do leave 0..8.  After the
    last cell of row 0 is accepted, [col_idx] is 9 at the test of the
    inner loop. *)
Lemma makeBoard_counter_reaches_9 :
  exists s,
    steps 8 lucky_rng 28 initial = Ok (Continue s)
    /\ row_idx s = 0 /\ col_idx s = 9 /\ at_loop s = InnerWhile
    /\ ~ in_range (row_idx s) (col_idx s).
Proof.
  eexists. split; [vm_compute; reflexivity|].
  split_and!; [reflexivity.. |]. unfold in_range. simpl. lia.
Qed.

(** C8, amended: the generator never addresses a cell outside the
    board.  At the cell loop, the only place where [check_legal] and
    [set_value], and through them [get_idx], are called, the cursor is
    within 0..8 x 0..8; the loop counters stay within 0..9 and take the
    value 9 only at the tests that leave the two outer loops.  The
    rollback, with its [min(rollback_factor, col_idx + row_idx * 8)]
    backward moves, runs without error and ends on an in-range cell at
    or after the origin, and no run raises an error. *)
Theorem makeBoard_cursor_in_range (rollback_factor : Z) (rng : nat -> nat) :
  (forall n, exists o,
     steps rollback_factor rng n initial = Ok o
     /\ forall s, o = Continue s ->
          0 <= row_idx s <= 9 /\ 0 <= col_idx s <= 9
          /\ (at_loop s = InnerWhile -> row_idx s <= 8)
          /\ (at_loop s = OuterWhile -> col_idx s = 0)
          /\ forall possible_values val,
               at_loop s = CellWhile possible_values val ->
               in_range (row_idx s) (col_idx s))
  /\ (forall row col board, in_range row col ->
        exists row' col' board',
          for_loop (range (Z.min rollback_factor (col + row * 8)))
                   rollback_body (row, col, board)
            = Ok (row', col', board')
          /\ in_range row' col'
          /\ 9 * row' + col'
             = 9 * row + col
               - Z.max 0 (Z.min rollback_factor (col + row * 8))
          /\ 0 <= 9 * row' + col' <= 9 * row + col)
  /\ (forall fuel, ~ raises (makeBoard rollback_factor rng fuel)).
Proof.
  split_and!.
  - intros n.
    destruct (steps_inv rollback_factor rng n initial inv_initial)
      as (o & Ho & Hok).
    exists o. split; [done|]. intros s ->.
    destruct Hok as (Hcur & _). unfold cursor_ok, in_range in *.
    destruct (at_loop s); split_and!; intros;
      first [lia | discriminate | done].
  - intros row col board Hin.
    destruct (rollback_in_range rollback_factor row col board Hin)
      as (row' & col' & board' & Hl & Hin' & Hp & _).
    destruct Hin as [Hr Hc]. pose proof Hin' as [Hr' Hc'].
    exists row', col', board'. split_and!; (done || lia).
  - intros fuel [e He]. unfold makeBoard in He.
    destruct (steps_inv rollback_factor rng fuel initial inv_initial)
      as (o & Ho & _).
    rewrite Ho, bind_Ok in He. by destruct o.
Qed.

(** C9 as stated fails: under the default rollback factor 8 there is a
    stream of draws on which the loop never reaches its return. *)
Lemma makeBoard_stuck_forever :
  ~ exists fuel board, makeBoard 8 stuck_rng fuel = Ok (Some board).
Proof.
  intros (fuel & board & Hrun). unfold makeBoard in Hrun.
  destruct (stuck_never_returns fuel) as [s Hs].
  by rewrite Hs in Hrun.
Qed.

(** C9, amended: for every rollback factor [makeBoard] has runs that
    terminate: there are draws on which the loop reaches its return,
    and the board returned is complete.  A run that has returned stays
    returned, and no run, terminating or not, ends in an error. *)
Theorem makeBoard_can_terminate (rollback_factor : Z) :
  (exists rng fuel board,
     makeBoard rollback_factor rng fuel = Ok (Some board)
     /\ full_board board = true
     /\ forall fuel', (fuel <= fuel')%nat ->
          makeBoard rollback_factor rng fuel' = Ok (Some board))
  /\ (forall rng fuel,
        makeBoard rollback_factor rng fuel = Ok None
        \/ exists board,
             makeBoard rollback_factor rng fuel = Ok (Some board)
             /\ full_board board = true).
Proof.
  split.
  - exists lucky_rng, 262%nat, solved_board.
    pose proof (makeBoard_lucky rollback_factor) as Hrun.
    split_and!; [done | by eapply makeBoard_returns_full_board |].
    intros fuel' Hle. by eapply makeBoard_mono.
  - intros rng fuel.
    destruct (makeBoard rollback_factor rng fuel) as [[board|]|e] eqn:Hrun.
    + right. exists board. split; [done|].
      by eapply makeBoard_returns_full_board.
    + by left.
    + exfalso. unfold makeBoard in Hrun.
      destruct (steps_inv rollback_factor rng fuel initial inv_initial)
        as (o & Ho & _).
      rewrite Ho, bind_Ok in Hrun. by destruct o.
Qed.

(** * Further properties of the module *)

(** ** Boards as values *)

Lemma arr3_ext {A} (a b : arr3 A) :
  (forall i, get3 a i = get3 b i) -> a = b.
Proof.
  intros H. destruct a as [x0 x1 x2], b as [y0 y1 y2].
  pose proof (H I0) as H0. pose proof (H I1) as H1. pose proof (H I2) as H2.
  simpl in *. by subst.
Qed.

Lemma board_ext (b1 b2 : ndarray) :
  (forall p, item b1 p = item b2 p) -> b1 = b2.
Proof.
  intros H.
  apply arr3_ext; intros i. apply arr3_ext; intros j.
  apply arr3_ext; intros k. apply arr3_ext; intros l.
  apply (H (i, j, k, l)).
Qed.

Lemma of_flat_ne row col row' col' :
  in_range row col -> in_range row' col' ->
  (row, col) <> (row', col') -> of_flat row col <> of_flat row' col'.
Proof.
  intros H H' Hne Heq. apply Hne.
  by destruct (of_flat_inj _ _ _ _ H H' Heq) as [-> ->].
Qed.

(** X1: writes compose as on a grid of independent cells.  For in-range
    coordinates, a second write to the same cell replaces the first
    whenever the first value is within the float range; writes to two
    different cells commute, errors included; and writing the float64
    that a cell already holds returns an equal board. *)
Theorem set_value_compose (board : ndarray) (row col row' col' v w : Z) :
  in_range row col -> in_range row' col' ->
  (Z.abs v < 2 ^ 1024 - 2 ^ 970 ->
   (set_value row col board v ≫= fun b => set_value row col b w)
   = set_value row col board w)
  /\ ((row, col) <> (row', col') ->
      (set_value row col board v ≫= fun b => set_value row' col' b w)
      = (set_value row' col' board w ≫= fun b => set_value row col b v))
  /\ (float64_of_int v = Ok v ->
      get_cell row col board = Ok v -> set_value row col board v = Ok board).
Proof.
  intros H H'. split_and!.
  - intros Hv.
    destruct (float64_of_int v) as [v1|e] eqn:Hcv.
    2:{ pose proof (float64_of_int_error _ _ Hcv) as ->.
        apply float64_of_int_overflow in Hcv. lia. }
    rewrite (set_value_converts _ _ _ v H), Hcv, !bind_Ok.
    rewrite !(set_value_converts _ _ _ w H).
    destruct (float64_of_int w) as [w1|e]; [|done].
    rewrite !bind_Ok. f_equal. apply board_ext. intros p.
    rewrite !item_store. by case_decide.
  - intros Hne. pose proof (of_flat_ne _ _ _ _ H H' Hne) as Hne'.
    rewrite (set_value_converts _ _ _ v H), (set_value_converts _ _ _ w H').
    destruct (float64_of_int v) as [v1|e1] eqn:Hcv,
             (float64_of_int w) as [w1|e2] eqn:Hcw;
      rewrite ?bind_Ok, ?bind_Raise.
    + rewrite (set_value_converts _ _ _ w H'), (set_value_converts _ _ _ v H).
      rewrite Hcv, Hcw, !bind_Ok.
      f_equal. apply board_ext. intros p. rewrite !item_store.
      repeat case_decide; congruence.
    + rewrite (set_value_converts _ _ _ w H'), Hcw. done.
    + rewrite (set_value_converts _ _ _ v H), Hcv.
      rewrite (float64_of_int_error _ _ Hcv). done.
    + by rewrite (float64_of_int_error _ _ Hcv),
        (float64_of_int_error _ _ Hcw).
  - intros Hcv. rewrite (get_cell_in_range _ _ _ H). intros [= Hv].
    rewrite (set_value_converts _ _ _ v H), Hcv, bind_Ok.
    f_equal. apply board_ext. intros p. rewrite item_store.
    case_decide as Hp; [|done]. by rewrite <- Hp, <- Hv.
Qed.

Lemma set_value_compose_witness :
  (set_value 2 3 solved_board 1 ≫= fun b => set_value 2 3 b 6)
  = set_value 2 3 solved_board 6
  /\ (set_value 2 3 solved_board 1 ≫= fun b => set_value 7 0 b 6)
     = (set_value 7 0 solved_board 6 ≫= fun b => set_value 2 3 b 1)
  /\ set_value 2 3 solved_board 1 = Ok solved_board.
Proof.
  destruct (set_value_compose solved_board 2 3 7 0 1 6) as (H1 & H2 & H3).
  - unfold in_range. lia.
  - unfold in_range. lia.
  - split_and!.
    + apply H1. by vm_compute.
    + apply H2. congruence.
    + apply H3; reflexivity.
Defined.

(** X2: the only error of [check_legal], and of reading a cell, is the
    failed assertion of [get_idx]: both raise [AssertionError] exactly
    when row or col is outside 0..8 and return a value otherwise. *)
Theorem check_legal_raises_iff_out_of_range (row col : Z) (board : ndarray) :
  (check_legal row col board = Raise AssertionError <-> ~ in_range row col)
  /\ (returns (check_legal row col board) <-> in_range row col)
  /\ (get_cell row col board = Raise AssertionError <-> ~ in_range row col)
  /\ (returns (get_cell row col board) <-> in_range row col).
Proof.
  destruct (decide (in_range row col)) as [H|H].
  - destruct (check_legal_in_range row col board H) as (legal & -> & _).
    rewrite (get_cell_in_range _ _ _ H).
    split_and!; split; try done; intros _; by eexists.
  - rewrite (check_legal_out_of_range _ _ _ H).
    unfold get_cell. rewrite (get_idx_out_of_range _ _ H), bind_Raise.
    split_and!; split; try done; by intros [? ?].
Qed.

(** ** check_legal against the full-board invariant *)

Lemma NoDup_range n : NoDup (range n).
Proof. apply NoDup_seqZ. Qed.

Lemma div3_range r : 0 <= r <= 8 -> 0 <= r / 3 <= 2.
Proof. intros Hr. enum9 r; vm_compute; split; discriminate. Qed.

Lemma legal4_of_counts board row col :
  in_range row col ->
  1 <= cell board row col <= 9 ->
  (forall d, 1 <= d <= 9 -> count_eq d (flat_row board row) = 1) ->
  (forall d, 1 <= d <= 9 -> count_eq d (flat_col board col) = 1) ->
  (forall d, 1 <= d <= 9 ->
     count_eq d (block board (row / 3) (col / 3)) = 1) ->
  legal4 board (of_flat row col).
Proof.
  intros Hin Hv Hrow Hcol Hblk.
  rewrite (cell_in_range _ _ _ Hin) in Hv.
  destruct Hin as [Hr Hc].
  rewrite flat_row_slice in Hrow by done.
  rewrite flat_col_slice in Hcol by done.
  rewrite block_slice_flat in Hblk by (by apply div3_range).
  specialize (Hrow _ Hv). specialize (Hcol _ Hv). specialize (Hblk _ Hv).
  unfold of_flat in *.
  set (i := idx3_of_Z (row / 3)) in *. set (j := idx3_of_Z (col / 3)) in *.
  set (k := idx3_of_Z (row mod 3)) in *. set (l := idx3_of_Z (col mod 3)) in *.
  split; [lia|].
  intros [[[i' j'] k'] l'] Hne [[<- <-] | [[<- <-] | [<- <-]]].
  - eapply block_slice_le_1; [|congruence].
    rewrite Hblk. reflexivity.
  - eapply row_slice_le_1; [|congruence].
    rewrite Hrow. reflexivity.
  - eapply col_slice_le_1; [|congruence].
    rewrite Hcol. reflexivity.
Qed.

(** X3: on a board of digits 0..9, the board satisfies the full-board
    invariant exactly when [check_legal] accepts every one of its 81
    cells. *)
Theorem full_board_iff_all_legal (board : ndarray) :
  (forall r c, in_range r c -> 0 <= cell board r c <= 9) ->
  full_board board = true
  <-> forall r c, in_range r c -> check_legal r c board = Ok true.
Proof.
  intros Hdig. split.
  - intros (Hrow & Hcol & Hblk & Hnz)%full_board_iff r c Hin.
    destruct (check_legal_in_range r c board Hin) as (legal & -> & Hiff).
    f_equal. apply Hiff. pose proof Hin as [Hr Hc].
    apply legal4_of_counts; try done.
    + specialize (Hnz r c Hin). specialize (Hdig r c Hin).
      rewrite get_cell_in_range, <- cell_in_range in Hnz by done.
      assert (cell board r c <> 0) by congruence. lia.
    + intros d Hd. by apply Hrow.
    + intros d Hd. by apply Hcol.
    + intros d Hd.
      apply Hblk; [by apply div3_range | by apply div3_range | done].
  - intros Hall.
    assert (Hlegal : forall q, legal4 board q).
    { intros q. destruct (of_flat_row_col q) as [Hin Hq]. rewrite <- Hq.
      destruct (check_legal_in_range _ _ board Hin) as (legal & Hl & Hiff).
      apply Hiff. rewrite (Hall _ _ Hin) in Hl. congruence. }
    apply full_board_intro.
    + intros q. destruct (of_flat_row_col q) as [Hin Hq]. rewrite <- Hq.
      rewrite <- cell_in_range by done. by apply Hdig.
    + intros q _. apply Hlegal.
    + intros q q' _ _ Hne Hsame _.
      apply not_eq_sym. apply (Hlegal q); [congruence | done].
Qed.

Lemma full_board_iff_all_legal_witness :
  full_board solved_board = true
  <-> forall r c, in_range r c -> check_legal r c solved_board = Ok true.
Proof.
  apply full_board_iff_all_legal.
  intros r c [Hr Hc]. enum9 r; enum9 c; vm_compute; split; discriminate.
Defined.

(** ** hide_portion_of_board outside the claims *)

(** Every outcome of the masker, by the count. *)
Lemma hide_cases max_rows rng board difficulty n :
  num_to_hide difficulty = Ok n ->
  hide_portion_of_board max_rows rng board difficulty
  = if n <? 0 then Raise ValueError
    else if 2 ^ 59 <=? n then Raise ValueError
    else if max_rows <? n then Raise MemoryError
    else Ok (zero_cells board (randint_0_9 rng (Z.to_nat n))).
Proof.
  intros Hn.
  destruct (Z.ltb_spec n 0) as [?|H0];
    [by unfold hide_portion_of_board, np_random_randint_0_9;
       rewrite Hn, bind_Ok; destruct (Z.ltb_spec n 0); [|lia]|].
  destruct (Z.leb_spec (2 ^ 59) n) as [?|H59];
    [by unfold hide_portion_of_board, np_random_randint_0_9;
       rewrite Hn, bind_Ok; destruct (Z.ltb_spec n 0); [lia|];
       destruct (Z.leb_spec (2 ^ 59) n); [|lia]|].
  destruct (Z.ltb_spec max_rows n) as [?|Hmax];
    [by unfold hide_portion_of_board, np_random_randint_0_9;
       rewrite Hn, bind_Ok; destruct (Z.ltb_spec n 0); [lia|];
       destruct (Z.leb_spec (2 ^ 59) n); [lia|];
       destruct (Z.ltb_spec max_rows n); [|lia]|].
  by apply hide_returns.
Qed.

Lemma hide_inv max_rows rng board difficulty hidden :
  hide_portion_of_board max_rows rng board difficulty = Ok hidden ->
  exists n,
    num_to_hide difficulty = Ok n
    /\ 0 <= n < 2 ^ 59 /\ n <= max_rows
    /\ hidden = zero_cells board (randint_0_9 rng (Z.to_nat n)).
Proof.
  intros Hhide.
  destruct (num_to_hide difficulty) as [n|e] eqn:Hn.
  2:{ unfold hide_portion_of_board in Hhide. by rewrite Hn in Hhide. }
  rewrite (hide_cases _ _ _ _ _ Hn) in Hhide.
  destruct (Z.ltb_spec n 0); [done|].
  destruct (Z.leb_spec (2 ^ 59) n); [done|].
  destruct (Z.ltb_spec max_rows n); [done|].
  exists n. split_and!; (done || lia || congruence).
Qed.

Lemma legal4_mask board board' p :
  (forall q, item board' q = item board q \/ item board' q = 0) ->
  item board' p = item board p ->
  legal4 board p -> legal4 board' p.
Proof.
  intros Hmask Hp [Hnz Hall]. rewrite <- Hp in Hnz. split; [done|].
  intros q Hne Hsame. rewrite Hp.
  destruct (Hmask q) as [-> | ->]; [by apply Hall | congruence].
Qed.

(** X4: masking never spoils a digit that stays.  If [check_legal]
    accepts a cell of the board and the masker leaves that cell
    non-zero, [check_legal] accepts it in the masked board as well; so
    on a board whose cells are all legal, every cell of the masked board
    is either 0 or legal. *)
Theorem hide_portion_of_board_keeps_legal
    (max_rows : Z) (rng : nat -> nat) (board hidden : ndarray)
    (difficulty : float64) :
  hide_portion_of_board max_rows rng board difficulty = Ok hidden ->
  (forall r c,
     check_legal r c board = Ok true ->
     get_cell r c hidden <> Ok 0 ->
     check_legal r c hidden = Ok true)
  /\ ((forall r c, in_range r c -> check_legal r c board = Ok true) ->
      forall r c, in_range r c ->
        get_cell r c hidden = Ok 0 \/ check_legal r c hidden = Ok true).
Proof.
  intros Hhide.
  destruct (hide_inv _ _ _ _ _ Hhide) as (n & _ & _ & _ & ->).
  set (ind := randint_0_9 rng (Z.to_nat n)).
  assert (Hmask : forall q, item (zero_cells board ind) q = item board q
                            \/ item (zero_cells board ind) q = 0).
  { intros q. rewrite item_zero_cells. case_decide; auto. }
  assert (Hkeep : forall r c,
            check_legal r c board = Ok true ->
            get_cell r c (zero_cells board ind) <> Ok 0 ->
            check_legal r c (zero_cells board ind) = Ok true).
  { intros r c Hlegal Hnz.
    destruct (decide (in_range r c)) as [Hin|Hout].
    2: { by rewrite (check_legal_out_of_range _ _ _ Hout) in Hlegal. }
    destruct (check_legal_in_range r c board Hin) as (l & Hl & Hiff).
    destruct (check_legal_in_range r c (zero_cells board ind) Hin)
      as (l' & -> & Hiff').
    f_equal. apply Hiff'.
    rewrite get_cell_in_range in Hnz by done.
    eapply legal4_mask; [done| |apply Hiff; congruence].
    destruct (Hmask (of_flat r c)) as [?|Hz]; [done|]. by rewrite Hz in Hnz. }
  split; [done|].
  intros Hall r c Hin.
  destruct (decide (get_cell r c (zero_cells board ind) = Ok 0)); [by left|].
  right. apply Hkeep; [by apply Hall | done].
Qed.

Lemma hide_portion_of_board_keeps_legal_witness :
  (forall r c,
     check_legal r c solved_board = Ok true ->
     get_cell r c (zero_cells solved_board
                     (randint_0_9 (fun i => (5 * i + 3)%nat) 40)) <> Ok 0 ->
     check_legal r c (zero_cells solved_board
                        (randint_0_9 (fun i => (5 * i + 3)%nat) 40)) = Ok true)
  /\ ((forall r c, in_range r c -> check_legal r c solved_board = Ok true) ->
      forall r c, in_range r c ->
        get_cell r c (zero_cells solved_board
                        (randint_0_9 (fun i => (5 * i + 3)%nat) 40)) = Ok 0
        \/ check_legal r c (zero_cells solved_board
                              (randint_0_9 (fun i => (5 * i + 3)%nat) 40))
           = Ok true).
Proof.
  apply (hide_portion_of_board_keeps_legal 81 (fun i => (5 * i + 3)%nat)
           solved_board _ (Finite 1 (-1))).
  vm_compute. reflexivity.
Defined.

(** X5: every outcome of the masker.  The count [int(81 * difficulty)]
    raises [OverflowError] when the float product is infinite and
    [ValueError] when it is a NaN, and these end the call.  With a count
    [n], [np.random.randint] raises [ValueError] for [n < 0] and from
    2^59 on, and [MemoryError] for an [n] below 2^59 that the machine
    has no room for.  In every other case the masker returns, with
    exactly the [n] drawn cells zeroed: the loop itself never fails. *)
Theorem hide_portion_of_board_outcomes
    (max_rows : Z) (rng : nat -> nat) (board : ndarray)
    (difficulty : float64) :
  match num_to_hide difficulty with
  | Raise e =>
      hide_portion_of_board max_rows rng board difficulty = Raise e
      /\ match float64_mul (Finite 81 0) difficulty with
         | Infinity => e = OverflowError
         | NaN => e = ValueError
         | Finite _ _ => False
         end
  | Ok n =>
      (n < 0 \/ 2 ^ 59 <= n ->
       hide_portion_of_board max_rows rng board difficulty = Raise ValueError)
      /\ (0 <= n < 2 ^ 59 -> max_rows < n ->
          hide_portion_of_board max_rows rng board difficulty
          = Raise MemoryError)
      /\ (0 <= n < 2 ^ 59 -> n <= max_rows ->
          hide_portion_of_board max_rows rng board difficulty
          = Ok (zero_cells board (randint_0_9 rng (Z.to_nat n))))
      /\ (returns (hide_portion_of_board max_rows rng board difficulty)
          <-> 0 <= n < 2 ^ 59 /\ n <= max_rows)
  end.
Proof.
  destruct (num_to_hide difficulty) as [n|e] eqn:Hn.
  - pose proof (hide_cases max_rows rng board difficulty n Hn) as Hc.
    split_and!.
    + intros [?|?]; rewrite Hc.
      * by destruct (Z.ltb_spec n 0); [|lia].
      * destruct (Z.ltb_spec n 0); [done|].
        by destruct (Z.leb_spec (2 ^ 59) n); [|lia].
    + intros [? ?] ?. rewrite Hc.
      destruct (Z.ltb_spec n 0); [lia|].
      destruct (Z.leb_spec (2 ^ 59) n); [lia|].
      by destruct (Z.ltb_spec max_rows n); [|lia].
    + intros [? ?] ?. by apply hide_returns.
    + rewrite Hc. split.
      * intros [b Hb]. destruct (Z.ltb_spec n 0); [done|].
        destruct (Z.leb_spec (2 ^ 59) n); [done|].
        destruct (Z.ltb_spec max_rows n); [done | lia].
      * intros [[? ?] ?]. destruct (Z.ltb_spec n 0); [lia|].
        destruct (Z.leb_spec (2 ^ 59) n); [lia|].
        destruct (Z.ltb_spec max_rows n); [lia | by eexists].
  - split.
    + unfold hide_portion_of_board. by rewrite Hn.
    + unfold num_to_hide in Hn. change board_size with 81 in Hn.
      destruct (float64_mul (Finite 81 0) difficulty); cbn [py_int] in Hn;
        congruence.
Qed.

(** ** makeBoard outside the claims *)

(** X6: what the rollback loop of [makeBoard] does to the board.  From
    an in-range cursor at row-major rank [p] it takes
    [k = max(0, min(rollback_factor, col_idx + row_idx * 8))] backward
    steps; it zeroes exactly the [k] cells of rank [p - k + 1 .. p], the
    cursor cell included, and leaves every other cell, the landing cell
    of rank [p - k] among them, as it was. *)
Theorem rollback_zeroes_the_cells_passed
    (rollback_factor row col : Z) (board : ndarray) :
  in_range row col ->
  exists row' col' board',
    for_loop (range (Z.min rollback_factor (col + row * 8))) rollback_body
             (row, col, board)
      = Ok (row', col', board')
    /\ in_range row' col'
    /\ 9 * row' + col'
       = 9 * row + col - Z.max 0 (Z.min rollback_factor (col + row * 8))
    /\ (forall r c, in_range r c ->
          get_cell r c board'
          = if decide (9 * row' + col' < 9 * r + c <= 9 * row + col)
            then Ok 0 else get_cell r c board)
    /\ get_cell row' col' board'
       = if decide (9 * row' + col' = 9 * row + col)
         then get_cell row col board else get_cell row' col' board.
Proof.
  intros Hin.
  destruct (rollback_in_range rollback_factor row col board Hin)
    as (row' & col' & board' & Hl & Hin' & Hp & Hitem).
  exists row', col', board'. split_and!; try done.
  - intros r c Hrc. rewrite !get_cell_in_range by done.
    rewrite Hitem, (position_of_flat _ _ Hrc). by case_decide.
  - rewrite (get_cell_in_range _ _ _ Hin'), Hitem.
    rewrite (position_of_flat _ _ Hin'), decide_False by lia.
    case_decide as Heq; [|by rewrite get_cell_in_range].
    assert (of_flat row' col' = of_flat row col) as ->.
    { apply position_inj. by rewrite !position_of_flat. }
    by rewrite get_cell_in_range.
Qed.

Lemma rollback_zeroes_the_cells_passed_witness :
  exists row' col' board',
    for_loop (range (Z.min 8 (6 + 1 * 8))) rollback_body (1, 6, solved_board)
      = Ok (row', col', board')
    /\ in_range row' col'
    /\ 9 * row' + col' = 9 * 1 + 6 - Z.max 0 (Z.min 8 (6 + 1 * 8))
    /\ (forall r c, in_range r c ->
          get_cell r c board'
          = if decide (9 * row' + col' < 9 * r + c <= 9 * 1 + 6)
            then Ok 0 else get_cell r c solved_board)
    /\ get_cell row' col' board'
       = if decide (9 * row' + col' = 9 * 1 + 6)
         then get_cell 1 6 solved_board else get_cell row' col' solved_board.
Proof.
  apply (rollback_zeroes_the_cells_passed 8 1 6 solved_board).
  unfold in_range. lia.
Defined.

(** X7: the partial-board invariant holds at every loop head of every
    run of [makeBoard]: all cells hold digits 0..9, every cell before
    the cursor in row-major order is filled, and no two cells of a
    block, row or column share a non-zero digit, the cell under the
    cursor of the cell loop left aside. *)
Theorem makeBoard_partial_board_invariant
    (rollback_factor : Z) (rng : nat -> nat) (n : nat) (s : state) :
  steps rollback_factor rng n initial = Ok (Continue s) ->
  (forall r c, in_range r c -> 0 <= cell (init_board s) r c <= 9)
  /\ (forall r c, in_range r c ->
        9 * r + c < 9 * row_idx s + col_idx s ->
        cell (init_board s) r c <> 0)
  /\ (forall r c r' c',
        in_range r c -> in_range r' c' -> (r, c) <> (r', c') ->
        same_region r c r' c' ->
        (forall possible_values val,
           at_loop s = CellWhile possible_values val ->
           (r, c) <> (row_idx s, col_idx s)
           /\ (r', c') <> (row_idx s, col_idx s)) ->
        cell (init_board s) r c <> 0 ->
        cell (init_board s) r c <> cell (init_board s) r' c').
Proof.
  intros Hrun.
  destruct (steps_inv rollback_factor rng n initial inv_initial)
    as (o & Ho & Hok).
  rewrite Hrun in Ho. injection Ho as <-. simpl in Hok.
  destruct Hok as (Hcur & Hdig & Hfill & Hctl). split_and!.
  - intros r c Hin. rewrite (cell_in_range _ _ _ Hin). apply Hdig.
  - intros r c Hin Hlt. rewrite (cell_in_range _ _ _ Hin).
    apply Hfill. by rewrite (position_of_flat _ _ Hin).
  - intros r c r' c' Hin Hin' Hne Hsame Hskip.
    rewrite !cell_in_range by done.
    pose proof (of_flat_ne _ _ _ _ Hin Hin' Hne) as Hne4.
    pose proof (proj1 (same_region_of_flat _ _ _ _ Hin Hin') Hsame) as Hsame4.
    unfold cursor_ok in Hcur.
    destruct (at_loop s) as [| |pool val] eqn:Hat.
    + by apply Hctl.
    + by apply Hctl.
    + destruct (Hskip pool val eq_refl) as [Hc1 Hc2].
      destruct Hctl as [Hcons _].
      pose proof (of_flat_ne _ _ _ _ Hin Hcur Hc1) as Hn1.
      pose proof (of_flat_ne _ _ _ _ Hin' Hcur Hc2) as Hn2.
      apply Hcons; [congruence | congruence | done | done].
Qed.

Lemma makeBoard_partial_board_invariant_witness :
  (forall r c, in_range r c -> 0 <= cell (init_board stuck_start) r c <= 9)
  /\ (forall r c, in_range r c ->
        9 * r + c < 9 * row_idx stuck_start + col_idx stuck_start ->
        cell (init_board stuck_start) r c <> 0)
  /\ (forall r c r' c',
        in_range r c -> in_range r' c' -> (r, c) <> (r', c') ->
        same_region r c r' c' ->
        (forall possible_values val,
           at_loop stuck_start = CellWhile possible_values val ->
           (r, c) <> (row_idx stuck_start, col_idx stuck_start)
           /\ (r', c') <> (row_idx stuck_start, col_idx stuck_start)) ->
        cell (init_board stuck_start) r c <> 0 ->
        cell (init_board stuck_start) r c <> cell (init_board stuck_start) r' c').
Proof.
  apply (makeBoard_partial_board_invariant 8 stuck_rng 60 stuck_start).
  vm_compute. reflexivity.
Defined.

Lemma list_remove_NoDup x l l' :
  NoDup l -> list_remove x l = Ok l' ->
  NoDup l' /\ (x ∉ l') /\ (length l' < length l)%nat
  /\ forall y, y ∈ l' -> y ∈ l.
Proof.
  revert l'. induction l as [|a l IH]; intros l' Hnd Hrm; [done|].
  apply NoDup_cons in Hnd as [Ha Hnd]. simpl in Hrm.
  destruct (decide (a = x)) as [->|Hne].
  - injection Hrm as <-. split_and!; [done | done | simpl; lia |].
    intros y Hy. by right.
  - destruct (list_remove x l) as [l''|e] eqn:E; [|done].
    rewrite bind_Ok in Hrm. injection Hrm as <-.
    destruct (IH l'' Hnd eq_refl) as (Hnd' & Hx & Hlen & Hsub).
    split_and!.
    + apply NoDup_cons. split; [|done]. intros Hin. by apply Ha, Hsub.
    + intros [->|?]%elem_of_cons; [done | by apply Hx].
    + simpl. lia.
    + intros y [->|Hy]%elem_of_cons; [left | right; by apply Hsub].
Qed.

Lemma choice_returns r l v : choice r l = Ok v -> v ∈ l.
Proof.
  unfold choice. destruct (l !! _) as [w|] eqn:E; [|done].
  intros [= <-]. by eapply list_elem_of_lookup_2.
Qed.

Lemma step_candidates rollback_factor rng s s' :
  inv s -> candidates_ok s ->
  step rollback_factor rng s = Ok (Continue s') ->
  candidates_ok s'.
Proof.
  destruct s as [row col board ctl d].
  intros (Hcur & Hdig & _ & Hctl) Hcand Hstep.
  unfold cursor_ok in Hcur. unfold candidates_ok in Hcand.
  simpl in Hcur, Hdig, Hctl, Hcand.
  assert (Hfresh : forall r c b n,
            candidates_ok (State r c b (CellWhile (range 10) 0) n)).
  { intros r c b n. split; [apply NoDup_range | by left]. }
  destruct ctl as [| |pool val].
  - rewrite step_outer in Hstep.
    destruct (row <? 3 * 3); [by injection Hstep as <- | discriminate].
  - rewrite step_inner in Hstep.
    destruct (col <? 3 * 3); injection Hstep as <-; [apply Hfresh | done].
  - destruct (check_legal_in_range row col board Hcur) as (legal & Hl & _).
    destruct legal.
    { rewrite (step_cell_legal _ _ _ _ _ _ _ _ Hl) in Hstep.
      by injection Hstep as <-. }
    destruct pool as [|x pool].
    { rewrite (step_cell_rollback _ _ _ _ _ _ _ Hl) in Hstep.
      destruct (for_loop _ _ _) as [[[r c] b]|e]; [|done].
      rewrite bind_Ok in Hstep. injection Hstep as <-. apply Hfresh. }
    rewrite (step_cell_try _ _ _ _ _ _ _ _ _ Hl) in Hstep.
    destruct Hcand as [Hnd Hcase].
    destruct (list_remove val (x :: pool)) as [pool'|e] eqn:Hrm; [|done].
    rewrite bind_Ok in Hstep.
    destruct (list_remove_NoDup _ _ _ Hnd Hrm) as (Hnd' & Hval & Hlen & Hsub).
    assert (Hzero : 0 ∉ pool').
    { destruct Hcase as [[Hp ->] | (H0 & _)]; [done|].
      intros Hin. by apply H0, Hsub. }
    assert (Hlen9 : (length pool' <= 9)%nat).
    { destruct Hcase as [[Hp _] | (_ & _ & Hl9 & _)]; [|lia].
      rewrite Hp in Hlen. simpl in Hlen. lia. }
    destruct pool' as [|y pool'].
    { injection Hstep as <-. split; [done|]. right.
      destruct Hcase as [[Hp ->] | (_ & Hv & _ & Hget)].
      { rewrite Hp in Hrm. vm_compute in Hrm. discriminate. }
      split_and!; [apply not_elem_of_nil | lia | lia | simpl; lia | done]. }
    replace (Z.of_nat (length (y :: pool')) =? 0) with false in Hstep
      by (symmetry; apply Z.eqb_neq; simpl length; lia).
    destruct (choice (rng d) (y :: pool')) as [v|e] eqn:Hch; [|done].
    apply choice_returns in Hch.
    destruct Hctl as [_ [_ Hrange]].
    pose proof (proj1 (Forall_forall _ _) Hrange v (Hsub v Hch)) as Hv.
    simpl in Hv.
    rewrite bind_Ok in Hstep.
    rewrite (set_value_in_range _ _ _ _ Hcur (float_exact_digit _ Hv)),
      bind_Ok in Hstep.
    injection Hstep as <-. split; [done|]. right.
    split_and!; [done | | | done |].
    + assert (v <> 0) by (intros ->; done). lia.
    + lia.
    + exact (eq_trans (get_cell_in_range row col _ Hcur)
                      (f_equal Ok (item_store_eq _ _ _))).
Qed.

Lemma steps_candidates rollback_factor rng n s s' :
  inv s -> candidates_ok s ->
  steps rollback_factor rng n s = Ok (Continue s') ->
  inv s' /\ candidates_ok s'.
Proof.
  revert s. induction n as [|n IH]; intros s Hinv Hcand Hrun.
  { by injection Hrun as <-. }
  cbn [steps] in Hrun.
  destruct (step_inv rollback_factor rng s Hinv) as (o & Ho & Hok).
  rewrite Ho, bind_Ok in Hrun. destruct o as [s1|b]; [|done].
  apply (IH s1);
    [done | exact (step_candidates _ _ s s1 Hinv Hcand Ho) | done].
Qed.

(** X8: the candidate pool at the head of the cell loop, in every run.
    The pool has no duplicates, and either it is the fresh [0..9] with
    [val = 0], or 0 is no longer in it: then it holds at most nine
    values, and [val] is a digit 1..9 and is what the cursor cell
    holds. *)
Theorem makeBoard_candidate_pool
    (rollback_factor : Z) (rng : nat -> nat) (n : nat) (s : state)
    (possible_values : list Z) (val : Z) :
  steps rollback_factor rng n initial = Ok (Continue s) ->
  at_loop s = CellWhile possible_values val ->
  NoDup possible_values
  /\ ((possible_values = range 10 /\ val = 0)
      \/ ((0 ∉ possible_values) /\ 1 <= val <= 9
          /\ (length possible_values <= 9)%nat
          /\ get_cell (row_idx s) (col_idx s) (init_board s) = Ok val)).
Proof.
  intros Hrun Hat.
  destruct (steps_candidates rollback_factor rng n initial s inv_initial I Hrun)
    as [_ Hcand].
  unfold candidates_ok in Hcand. by rewrite Hat in Hcand.
Qed.

Lemma makeBoard_candidate_pool_witness :
  NoDup [7; 8; 9]
  /\ (([7; 8; 9] = range 10 /\ 7 = 0)
      \/ ((0 ∉ [7; 8; 9]) /\ 1 <= 7 <= 9
          /\ (length [7; 8; 9] <= 9)%nat
          /\ get_cell (row_idx mid_visit_state) (col_idx mid_visit_state)
               (init_board mid_visit_state) = Ok 7)).
Proof.
  apply (makeBoard_candidate_pool 8 stuck_rng 56 mid_visit_state [7; 8; 9] 7).
  - by vm_compute.
  - by vm_compute.
Defined.

Lemma store_same board p : store board p (item board p) = board.
Proof.
  apply board_ext. intros q. rewrite item_store. case_decide; congruence.
Qed.

Lemma store_store board p v w : store (store board p v) p w = store board p w.
Proof.
  apply board_ext. intros q. rewrite !item_store. by case_decide.
Qed.

Lemma range_nonpos n : n <= 0 -> range n = [].
Proof. intros Hn. unfold range, seqZ. by replace (Z.to_nat n) with 0%nat by lia. Qed.

(** Without rollback a dead end is kept by every step. *)
Lemma dead_end_step rollback_factor rng s :
  rollback_factor <= 0 ->
  inv s ->
  (exists pool val, at_loop s = CellWhile pool val) ->
  dead_end (row_idx s) (col_idx s) (init_board s) ->
  exists s',
    step rollback_factor rng s = Ok (Continue s')
    /\ inv s'
    /\ (exists pool val, at_loop s' = CellWhile pool val)
    /\ dead_end (row_idx s') (col_idx s') (init_board s').
Proof.
  intros Hrf Hinv (pool & val & Hat) Hdead.
  destruct (step_inv rollback_factor rng s Hinv) as (o & Ho & Hok).
  destruct s as [row col board ctl d]. simpl in Hat, Hdead. subst ctl.
  destruct Hinv as (Hcur & Hdig & _). unfold cursor_ok in Hcur.
  simpl in Hcur, Hdig.
  assert (Hl : check_legal row col board = Ok false).
  { specialize (Hdead _ (Hdig (of_flat row col))).
    by rewrite (set_value_in_range _ _ _ _ Hcur
                  (float_exact_digit _ (Hdig (of_flat row col)))),
      bind_Ok, store_same in Hdead. }
  pose proof Ho as Hstep.
  destruct pool as [|x pool].
  { rewrite (step_cell_rollback _ _ _ _ _ _ _ Hl) in Ho.
    rewrite (range_nonpos (Z.min rollback_factor (col + row * 8))) in Ho
      by lia.
    simpl in Ho. injection Ho as <-.
    eexists. split; [exact Hstep|]. split; [done|]. split; [by eexists _, _|].
    done. }
  rewrite (step_cell_try _ _ _ _ _ _ _ _ _ Hl) in Ho.
  destruct (list_remove val (x :: pool)) as [pool'|e]; [|done].
  rewrite bind_Ok in Ho.
  destruct (Z.of_nat (length pool') =? 0).
  { injection Ho as <-.
    eexists. split; [exact Hstep|]. split; [done|]. split; [by eexists _, _|].
    done. }
  destruct (choice (rng d) pool') as [v|e]; [|done].
  rewrite bind_Ok, (set_value_converts _ _ _ _ Hcur) in Ho.
  destruct (float64_of_int v) as [v1|e]; [|done].
  rewrite !bind_Ok in Ho. injection Ho as <-.
  eexists. split; [exact Hstep|]. split; [done|]. split; [by eexists _, _|].
  change (dead_end row col (store board (of_flat row col) v1)).
  intros w Hw. specialize (Hdead w Hw).
  rewrite (set_value_in_range _ _ _ _ Hcur (float_exact_digit _ Hw)),
    bind_Ok in Hdead.
  by rewrite (set_value_in_range _ _ _ _ Hcur (float_exact_digit _ Hw)),
    bind_Ok, store_store.
Qed.

Lemma dead_end_steps rollback_factor rng m s :
  rollback_factor <= 0 ->
  inv s ->
  (exists pool val, at_loop s = CellWhile pool val) ->
  dead_end (row_idx s) (col_idx s) (init_board s) ->
  exists s', steps rollback_factor rng m s = Ok (Continue s').
Proof.
  intros Hrf. revert s. induction m as [|m IH]; intros s Hinv Hat Hdead.
  { by exists s. }
  destruct (dead_end_step rollback_factor rng s Hrf Hinv Hat Hdead)
    as (s1 & Hstep & Hinv1 & Hat1 & Hdead1).
  cbn [steps]. rewrite Hstep, bind_Ok. by apply IH.
Qed.

(** X9: a rollback factor of 0 or less switches backtracking off.  Once
    such a run stands at a cell where none of the digits 0..9 is legal,
    it stays at that cell for ever, whatever is drawn afterwards:
    [makeBoard] never returns. *)
Theorem makeBoard_without_rollback_never_leaves_dead_end
    (rollback_factor : Z) (rng : nat -> nat) (n : nat) (s : state)
    (possible_values : list Z) (val : Z) :
  rollback_factor <= 0 ->
  steps rollback_factor rng n initial = Ok (Continue s) ->
  at_loop s = CellWhile possible_values val ->
  dead_end (row_idx s) (col_idx s) (init_board s) ->
  forall fuel, makeBoard rollback_factor rng fuel = Ok None.
Proof.
  intros Hrf Hrun Hat Hdead fuel. unfold makeBoard.
  destruct (steps_inv rollback_factor rng n initial inv_initial)
    as (o & Ho & Hok).
  rewrite Hrun in Ho. injection Ho as <-. simpl in Hok.
  assert (exists s', steps rollback_factor rng fuel initial = Ok (Continue s'))
    as [s' ->]; [|done].
  destruct (decide (fuel <= n)%nat) as [Hle|Hgt].
  - replace n with (fuel + (n - fuel))%nat in Hrun by lia.
    rewrite steps_add in Hrun.
    destruct (steps rollback_factor rng fuel initial) as [[s'|b]|e];
      [by exists s' | done..].
  - replace fuel with (n + (fuel - n))%nat by lia.
    rewrite steps_add, Hrun, bind_Ok.
    apply dead_end_steps; [done | done | by eexists _, _ | done].
Qed.

Lemma makeBoard_without_rollback_never_leaves_dead_end_witness :
  makeBoard 0 stuck_rng 500 = Ok None.
Proof.
  apply (makeBoard_without_rollback_never_leaves_dead_end
           0 stuck_rng 49 dead_end_state (range 10) 0).
  - lia.
  - vm_compute. reflexivity.
  - reflexivity.
  - intros v Hv.
    assert (v = 0 \/ v = 1 \/ v = 2 \/ v = 3 \/ v = 4 \/ v = 5
            \/ v = 6 \/ v = 7 \/ v = 8 \/ v = 9) as Hcases by lia.
    destruct Hcases as [-> | [-> | [-> | [-> | [-> | [-> | [-> | [-> | [-> | ->]]]]]]]]];
      vm_compute; reflexivity.
Defined.

(** ** displayBoard *)

Lemma pretty_digit z : 0 <= z <= 9 -> pretty z = fmt_digit z.
Proof.
  intros Hz.
  assert (z = 0 \/ z = 1 \/ z = 2 \/ z = 3 \/ z = 4 \/ z = 5
          \/ z = 6 \/ z = 7 \/ z = 8 \/ z = 9) as Hc by lia.
  destruct Hc as [-> | [-> | [-> | [-> | [-> | [-> | [-> | [-> | [-> | ->]]]]]]]]];
    reflexivity.
Qed.

Lemma digit_char_inj x y :
  0 <= x <= 9 -> 0 <= y <= 9 -> digit_char x = digit_char y -> x = y.
Proof.
  intros Hx Hy Heq. apply Z2N.inj; [lia | lia |].
  apply pretty_N_char_inj; [lia | lia | done].
Qed.

Lemma display_with_ext fmt fmt' board :
  (forall p, fmt (item board p) = fmt' (item board p)) ->
  display_with fmt board = display_with fmt' board.
Proof.
  intros H. cbv [display_with foldl all3 fmap list_fmap].
  rewrite !H. reflexivity.
Qed.

Lemma display_digits board r c :
  digits_only board -> in_range r c ->
  String.get (display_offset r c) (displayBoard board)
  = Some (digit_char (cell board r c))
  /\ String.length (displayBoard board) = 460%nat.
Proof.
  intros Hdig [Hr Hc]. unfold displayBoard.
  rewrite (display_with_ext pretty fmt_digit board)
    by (intros p; apply pretty_digit, Hdig).
  clear Hdig.
  destruct board as [[[[] [] []] [[] [] []] [[] [] []]]
                     [[[] [] []] [[] [] []] [[] [] []]]
                     [[[] [] []] [[] [] []] [[] [] []]]].
  split.
  - enum9 r; enum9 c; vm_compute; reflexivity.
  - vm_compute. reflexivity.
Qed.

Lemma digits_only_flat board :
  (forall r c, in_range r c -> 0 <= cell board r c <= 9) -> digits_only board.
Proof.
  intros H q. destruct (of_flat_row_col q) as [Hin Hq]. rewrite <- Hq.
  rewrite <- cell_in_range by done. by apply H.
Qed.

(** X10: what [displayBoard] prints determines a board of digits.  For
    a board whose cells are 0..9 the text has 460 characters, the
    character at row [2 + r + r // 3] (after the two header lines and
    the separators passed), column [3 + 10 * (c // 3) + 3 * (c % 3)] is
    the digit of cell (r, c), and two such boards with the same text are
    equal. *)
Theorem displayBoard_shows_every_digit (board : ndarray) :
  (forall r c, in_range r c -> 0 <= cell board r c <= 9) ->
  String.length (displayBoard board) = 460%nat
  /\ (forall r c, in_range r c ->
        String.get (display_offset r c) (displayBoard board)
        = Some (digit_char (cell board r c)))
  /\ (forall board',
        (forall r c, in_range r c -> 0 <= cell board' r c <= 9) ->
        displayBoard board' = displayBoard board -> board' = board).
Proof.
  intros Hflat. pose proof (digits_only_flat _ Hflat) as Hdig. split_and!.
  - apply (display_digits board 0 0 Hdig). unfold in_range. lia.
  - intros r c Hin. by apply display_digits.
  - intros board' Hflat' Heq.
    pose proof (digits_only_flat _ Hflat') as Hdig'.
    apply board_ext. intros q.
    destruct (of_flat_row_col q) as [Hin Hq]. rewrite <- Hq.
    rewrite <- !cell_in_range by done.
    apply digit_char_inj; [by apply Hflat' | by apply Hflat |].
    pose proof (proj1 (display_digits board _ _ Hdig Hin)) as H1.
    pose proof (proj1 (display_digits board' _ _ Hdig' Hin)) as H2.
    rewrite Heq in H2. congruence.
Qed.

Lemma displayBoard_shows_every_digit_witness :
  String.length (displayBoard solved_board) = 460%nat
  /\ (forall r c, in_range r c ->
        String.get (display_offset r c) (displayBoard solved_board)
        = Some (digit_char (cell solved_board r c)))
  /\ (forall board',
        (forall r c, in_range r c -> 0 <= cell board' r c <= 9) ->
        displayBoard board' = displayBoard solved_board ->
        board' = solved_board).
Proof.
  apply displayBoard_shows_every_digit.
  intros r c [Hr Hc]. enum9 r; enum9 c; vm_compute; split; discriminate.
Defined.

(** ** load_from_file *)

Lemma io_bind_returned {A B} (m : io A) (f : A -> io B) w a w' :
  m w = (Returned a, w') -> (m ≫= f) w = f a w'.
Proof. intros H. unfold mbind, io_bind. by rewrite H. Qed.

Lemma io_bind_raised {A B} (m : io A) (f : A -> io B) w e w' :
  m w = (Raised e, w') -> (m ≫= f) w = (Raised e, w').
Proof. intros H. unfold mbind, io_bind. by rewrite H. Qed.

Lemma endswith_trans s t u :
  endswith t u = true -> endswith s t = true -> endswith s u = true.
Proof.
  unfold endswith. intros H1%bool_decide_eq_true_1 H2%bool_decide_eq_true_1.
  apply bool_decide_eq_true_2. by etrans.
Qed.

Lemma endswith_usr_npy s : endswith s "_usr.npy" = true -> endswith s ".npy" = true.
Proof. by apply endswith_trans. Qed.

Lemma endswith_sol_npy s : endswith s "_sol.npy" = true -> endswith s ".npy" = true.
Proof. by apply endswith_trans. Qed.

Lemma suffix_same_length {A} (l1 l2 l : list A) :
  l1 `suffix_of` l -> l2 `suffix_of` l -> length l1 = length l2 -> l1 = l2.
Proof.
  intros [k1 ->] [k2 Heq] Hlen.
  assert (length k1 = length k2) as Hk.
  { apply (f_equal length) in Heq. rewrite !length_app in Heq. lia. }
  by apply app_inj_1 in Heq as [_ ?].
Qed.

Lemma endswith_usr_not_sol s :
  endswith s "_usr.npy" = true -> endswith s "_sol.npy" = false.
Proof.
  unfold endswith. intros H1%bool_decide_eq_true_1.
  apply bool_decide_eq_false_2. intros H2.
  by pose proof (suffix_same_length _ _ _ H1 H2 eq_refl).
Qed.

Lemma printed_nil w : printed [] w = w.
Proof. destruct w. unfold printed. simpl. by rewrite app_nil_r. Qed.

Lemma printed_printed l1 l2 w : printed l2 (printed l1 w) = printed (l1 ++ l2) w.
Proof. unfold printed. simpl. by rewrite app_assoc. Qed.

Lemma print_eq s w : print s w = (Returned tt, printed [s] w).
Proof. reflexivity. Qed.

Lemma input_eq prompt w :
  input prompt w
  = (match stdin w with
     | [] => Raised EOFError
     | line :: _ => Returned line
     end, consumed prompt w).
Proof. unfold input, consumed. by destruct (stdin w). Qed.

Lemma last_with_cons suffix f files :
  last_with suffix (f :: files)
  = match last_with suffix files with
    | Some b => Some b
    | None => if endswith f.1 suffix then Some f.2 else None
    end.
Proof.
  unfold last_with. rewrite filter_cons.
  destruct (endswith f.1 suffix) eqn:E.
  - rewrite decide_True by done. rewrite last_cons.
    by destruct (last (filter _ files)).
  - rewrite decide_False by done. by destruct (last (filter _ files)).
Qed.

Lemma found_messages_cons f files :
  found_messages (f :: files)
  = (if endswith f.1 ".npy"
     then ["Found file " +:+ f.1 +:+ ". Trying to load"] else [])
    ++ found_messages files.
Proof.
  unfold found_messages. rewrite filter_cons.
  destruct (endswith f.1 ".npy") eqn:E.
  - by rewrite decide_True by done.
  - by rewrite decide_False by done.
Qed.

Lemma last_with_None suffix files :
  last_with suffix files = None
  <-> length (filter (fun f => endswith f.1 suffix = true) files) = 0%nat.
Proof.
  unfold last_with.
  destruct (filter _ files) as [|x l] eqn:E; [done|].
  rewrite last_cons. split; [|done]. by destruct (last l).
Qed.

Lemma scan_file_eq f found user_board complete_board w :
  scan_file f (found, user_board, complete_board) w
  = (Returned
       ((found.1 + (if endswith f.1 "_usr.npy" then 1 else 0),
         found.2 + (if endswith f.1 "_sol.npy" then 1 else 0)),
        (if endswith f.1 "_usr.npy" then Some f.2 else user_board),
        (if endswith f.1 "_sol.npy" then Some f.2 else complete_board)),
     printed (if endswith f.1 ".npy"
              then ["Found file " +:+ f.1 +:+ ". Trying to load"] else []) w).
Proof.
  unfold scan_file. destruct found as [n1 n2]. simpl fst. simpl snd.
  destruct (endswith f.1 ".npy") eqn:Enpy.
  - rewrite (io_bind_returned _ _ _ _ _ (print_eq _ w)).
    destruct (endswith f.1 "_usr.npy") eqn:Eusr.
    + rewrite (endswith_usr_not_sol _ Eusr). by rewrite Z.add_0_r.
    + destruct (endswith f.1 "_sol.npy"); by rewrite !Z.add_0_r.
  - destruct (endswith f.1 "_usr.npy") eqn:Eusr.
    { apply endswith_usr_npy in Eusr. congruence. }
    destruct (endswith f.1 "_sol.npy") eqn:Esol.
    { apply endswith_sol_npy in Esol. congruence. }
    by rewrite !Z.add_0_r, printed_nil.
Qed.

(** The scan of a listing: counters, bound locals and printed lines. *)
Lemma scan_loop files found user_board complete_board w :
  for_io files scan_file (found, user_board, complete_board) w
  = (Returned
       ((found.1 + Z.of_nat (length
                    (filter (fun f => endswith f.1 "_usr.npy" = true) files)),
         found.2 + Z.of_nat (length
                    (filter (fun f => endswith f.1 "_sol.npy" = true) files))),
        match last_with "_usr.npy" files with
        | Some b => Some b
        | None => user_board
        end,
        match last_with "_sol.npy" files with
        | Some b => Some b
        | None => complete_board
        end),
     printed (found_messages files) w).
Proof.
  revert found user_board complete_board w.
  induction files as [|f files IH]; intros found ub cb w.
  { simpl. destruct found. by rewrite !Z.add_0_r, printed_nil. }
  cbn [for_io].
  rewrite (io_bind_returned _ _ _ _ _ (scan_file_eq f found ub cb w)).
  rewrite IH. rewrite !last_with_cons, found_messages_cons, printed_printed.
  rewrite !filter_cons.
  destruct (endswith f.1 "_usr.npy") eqn:Eu, (endswith f.1 "_sol.npy") eqn:Es;
    rewrite ?decide_True, ?decide_False by done;
    destruct (last_with "_usr.npy" files), (last_with "_sol.npy" files);
    simpl length; cbn [fst snd];
    repeat first [lia | done | progress f_equal].
Qed.

(** A blank filename: the scan of the directory. *)
Lemma load_from_file_blank (w : world) (rest : list string) :
  stdin w = ""%string :: rest ->
  let files := listings w (listed w) in
  let lines := stdout w ++ load_prompt :: found_messages files in
  match last_with "_usr.npy" files, last_with "_sol.npy" files with
  | Some user_board, Some complete_board =>
      load_from_file w
      = (Returned (user_board, complete_board),
         World rest lines (warnings w) (listings w) (S (listed w))
               (saved w) (writable w))
  | _, _ =>
      load_from_file w
      = (Raised (ModuleError UnboundLocalError),
         World rest lines (warnings w ++ [load_warning]) (listings w)
               (S (listed w)) (saved w) (writable w))
  end.
Proof.
  intros Hin files lines. unfold load_from_file.
  rewrite (io_bind_returned _ _ w "" (consumed load_prompt w))
    by (rewrite input_eq; by rewrite Hin).
  rewrite decide_True by done.
  set (w1 := consumed load_prompt w).
  set (w2 := World (stdin w1) (stdout w1) (warnings w1) (listings w1)
                   (S (listed w1)) (saved w1) (writable w1)).
  assert (Hscan :
    for_io files scan_file ((0, 0), None, None) w2
    = (Returned
         ((0 + Z.of_nat (length
                 (filter (fun f => endswith f.1 "_usr.npy" = true) files)),
           0 + Z.of_nat (length
                 (filter (fun f => endswith f.1 "_sol.npy" = true) files))),
          match last_with "_usr.npy" files with
          | Some b => Some b | None => None end,
          match last_with "_sol.npy" files with
          | Some b => Some b | None => None end),
       printed (found_messages files) w2)) by apply scan_loop.
  pose proof (last_with_None "_usr.npy" files) as Hu.
  pose proof (last_with_None "_sol.npy" files) as Hs.
  assert (Hw : printed (found_messages files) w2
               = World rest lines (warnings w) (listings w) (S (listed w))
                       (saved w) (writable w)).
  { unfold printed, w2, w1, consumed, lines. simpl. rewrite Hin. simpl.
    by rewrite <- app_assoc. }
  rewrite Hw in Hscan. cbv zeta.
  match goal with
  | |- context [(?m ≫= ?k) w1] =>
      assert (Hinner :
        m w1
        = (Returned (last_with "_usr.npy" files, last_with "_sol.npy" files),
           if Z.b2z (all_found
                (0 + Z.of_nat (length (filter
                       (fun f => endswith f.1 "_usr.npy" = true) files)),
                 0 + Z.of_nat (length (filter
                       (fun f => endswith f.1 "_sol.npy" = true) files))))
              =? 1
           then World rest lines (warnings w) (listings w) (S (listed w))
                      (saved w) (writable w)
           else World rest lines (warnings w ++ [load_warning]) (listings w)
                      (S (listed w)) (saved w) (writable w)))
  end.
  { rewrite (io_bind_returned os_listdir _ w1 files w2 eq_refl).
    rewrite (io_bind_returned _ _ _ _ _ Hscan). cbv beta iota.
    destruct (Z.b2z _ =? 1); cbn [negb];
      by destruct (last_with "_usr.npy" files), (last_with "_sol.npy" files). }
  rewrite (io_bind_returned _ _ _ _ _ Hinner). cbv beta iota.
  unfold all_found. cbn [fst snd].
  destruct (last_with "_usr.npy" files) as [u|],
           (last_with "_sol.npy" files) as [c|].
  + assert (length (filter (fun f => endswith f.1 "_usr.npy" = true) files)
            <> 0%nat) as Hu' by (intros H; by apply Hu in H).
    assert (length (filter (fun f => endswith f.1 "_sol.npy" = true) files)
            <> 0%nat) as Hs' by (intros H; by apply Hs in H).
    destruct (Z.eqb_spec (0 + Z.of_nat (length
                 (filter (fun f => endswith f.1 "_usr.npy" = true) files))) 0);
      [lia|].
    destruct (Z.eqb_spec (0 + Z.of_nat (length
                 (filter (fun f => endswith f.1 "_sol.npy" = true) files))) 0);
      [lia|].
    reflexivity.
  + rewrite (proj1 Hs eq_refl). simpl. rewrite andb_false_r. reflexivity.
  + rewrite (proj1 Hu eq_refl). reflexivity.
  + rewrite (proj1 Hu eq_refl). reflexivity.
Qed.

(** X11: every outcome of [load_from_file].  At the end of the input it
    raises [EOFError].  A non-blank file name is never used: the locals
    stay unbound and the return raises [UnboundLocalError], with no look
    at the directory.  For a blank name the directory is scanned once,
    each [*.npy] name is printed, and the last listed [*_usr.npy] and
    the last listed [*_sol.npy] are returned, without any warning
    however many matched; if one kind is missing the warning is logged
    and the return raises [UnboundLocalError]. *)
Theorem load_from_file_outcomes (w : world) :
  (stdin w = [] ->
   load_from_file w = (Raised EOFError, consumed load_prompt w))
  /\ (forall fn rest, stdin w = fn :: rest -> fn <> "" ->
        load_from_file w
        = (Raised (ModuleError UnboundLocalError), consumed load_prompt w))
  /\ (forall rest, stdin w = "" :: rest ->
        let files := listings w (listed w) in
        let lines := stdout w ++ load_prompt :: found_messages files in
        match last_with "_usr.npy" files, last_with "_sol.npy" files with
        | Some user_board, Some complete_board =>
            load_from_file w
            = (Returned (user_board, complete_board),
               World rest lines (warnings w) (listings w) (S (listed w))
                     (saved w) (writable w))
        | _, _ =>
            load_from_file w
            = (Raised (ModuleError UnboundLocalError),
               World rest lines (warnings w ++ [load_warning]) (listings w)
                     (S (listed w)) (saved w) (writable w))
        end).
Proof.
  split_and!.
  - intros Hin. unfold load_from_file.
    apply io_bind_raised. rewrite input_eq. by rewrite Hin.
  - intros fn rest Hin Hfn. unfold load_from_file.
    rewrite (io_bind_returned _ _ w fn (consumed load_prompt w))
      by (rewrite input_eq; by rewrite Hin).
    by rewrite decide_False by done.
  - intros rest Hin. by apply load_from_file_blank.
Qed.

(** ** game *)

Lemma all_pos4_complete (q : pos4) : q ∈ all_pos4.
Proof. destruct q as [[[[] []] []] []]; apply (bool_decide_unpack _); by vm_compute. Qed.

Lemma ndarray_all_true board :
  ndarray_all board = true <-> forall q, item board q <> 0.
Proof.
  unfold ndarray_all. rewrite forallb_forall. split.
  - intros H q. specialize (H q (proj1 (list_elem_of_In _ _) (all_pos4_complete q))).
    apply negb_true_iff in H. by apply Z.eqb_neq.
  - intros H q _. apply negb_true_iff. by apply Z.eqb_neq.
Qed.

Lemma ndarray_all_false board q :
  item board q = 0 -> ndarray_all board = false.
Proof.
  intros Hq. apply not_true_iff_false. intros H.
  by apply (proj1 (ndarray_all_true board) H q).
Qed.

Lemma full_board_all board : full_board board = true -> ndarray_all board = true.
Proof.
  intros H. apply ndarray_all_true. intros q.
  destruct (proj1 (full_board_iff board) H) as (_ & _ & _ & Hnz).
  destruct (of_flat_row_col q) as [Hin Hq].
  specialize (Hnz _ _ Hin). rewrite get_cell_in_range, Hq in Hnz by done.
  congruence.
Qed.

Lemma io_bind_ret {A B} (a : A) (f : A -> io B) w : (mret a ≫= f) w = f a w.
Proof. reflexivity. Qed.

Lemma lift_Ok {A} (a : A) : lift (Ok a) = mret a.
Proof. reflexivity. Qed.

Lemma input_cons prompt w line rest :
  stdin w = line :: rest -> input prompt w = (Returned line, consumed prompt w).
Proof. intros H. by rewrite input_eq, H. Qed.

Lemma input_nil prompt w :
  stdin w = [] -> input prompt w = (Raised EOFError, consumed prompt w).
Proof. intros H. by rewrite input_eq, H. Qed.

Lemma game_loop_S parse_int hints fuel user_board complete_board :
  game_loop parse_int hints (S fuel) user_board complete_board
  = if negb (boards_agree user_board complete_board) then
        action ← input action_prompt;
        action ← ask_again fuel action;
        if decide (action = "save") then
          save_pth ← input save_prompt;
          _ ← np_save (save_pth +:+ "_usr") user_board;
          _ ← np_save (save_pth +:+ "_sol") complete_board;
          _ ← print "Successfully saved!";
          game_loop parse_int hints fuel user_board complete_board
        else if decide (action = "load") then
          '(user_board, complete_board) ← load_from_file;
          game_loop parse_int hints fuel user_board complete_board
        else if decide (action = "play") then
          reply ← input play_prompt;
          match parse_reply parse_int reply with
          | None =>
              _ ← print "Invalid format.";
              game_loop parse_int hints fuel user_board complete_board
          | Some (row, col, val) =>
              user_board ← lift (set_value row col user_board val);
              user_board ←
                (if hints then
                   legal ← lift (check_legal row col user_board);
                   if negb legal then
                     override_reply ← input override_prompt;
                     if decide (py_lower override_reply = "n")
                     then lift (set_value row col user_board 0)
                     else mret user_board
                   else mret user_board
                 else mret user_board);
              _ ← print (displayBoard user_board);
              game_loop parse_int hints fuel user_board complete_board
          end
        else if decide (action = "exit") then
          mret (user_board, complete_board)
        else game_loop parse_int hints fuel user_board complete_board
      else mret (user_board, complete_board).
Proof. reflexivity. Qed.

Lemma ask_again_known fuel action :
  action ∈ actions -> ask_again fuel action = mret action.
Proof. intros H. destruct fuel; simpl; by rewrite bool_decide_eq_true_2. Qed.

(** The start of a round whose command is [play]. *)
Lemma game_loop_play parse_int hints fuel u c w reply rest :
  boards_agree u c = false ->
  stdin w = "play"%string :: reply :: rest ->
  game_loop parse_int hints (S fuel) u c w
  = match parse_reply parse_int reply with
    | None =>
        game_loop parse_int hints fuel u c
          (printed ["Invalid format."%string]
             (consumed play_prompt (consumed action_prompt w)))
    | Some (row, col, val) =>
        (user_board ← lift (set_value row col u val);
         user_board ←
           (if hints then
              legal ← lift (check_legal row col user_board);
              if negb legal then
                override_reply ← input override_prompt;
                if decide (py_lower override_reply = "n")
                then lift (set_value row col user_board 0)
                else mret user_board
              else mret user_board
            else mret user_board);
         _ ← print (displayBoard user_board);
         game_loop parse_int hints fuel user_board c)
          (consumed play_prompt (consumed action_prompt w))
    end.
Proof.
  intros Hagree Hin. rewrite game_loop_S, Hagree. cbn [negb].
  rewrite (io_bind_returned _ _ _ _ _ (input_cons action_prompt w _ _ Hin)).
  rewrite ask_again_known by (apply (bool_decide_unpack _); by vm_compute).
  rewrite io_bind_ret.
  rewrite decide_False by done. rewrite decide_False by done.
  rewrite decide_True by done.
  assert (Hin' : stdin (consumed action_prompt w) = reply :: rest)
    by (unfold consumed; simpl; by rewrite Hin).
  rewrite (io_bind_returned _ _ _ _ _ (input_cons play_prompt _ _ _ Hin')).
  destruct (parse_reply parse_int reply) as [[[row col] val]|]; [done|].
  by rewrite (io_bind_returned _ _ _ _ _ (print_eq _ _)).
Qed.

Lemma tame_ret {A} n (a : A) : tame n (mret a).
Proof. intros w _. by split. Qed.

Lemma tame_raise {A} n e : tame n (raise e : io A).
Proof. intros w _. by split. Qed.

Lemma tame_lift {A} n (r : result A) : tame n (lift r).
Proof. destruct r; [apply tame_ret | apply tame_raise]. Qed.

Lemma tame_print n s : tame n (print s).
Proof. intros w _. by split. Qed.

Lemma tame_np_save n file arr : tame n (np_save file arr).
Proof. intros w _. unfold np_save. by destruct (writable w _). Qed.

Lemma tame_logging_warn n s : tame n (logging_warn s).
Proof. intros w _. by split. Qed.

Lemma tame_os_listdir n : tame n os_listdir.
Proof. intros w _. by split. Qed.

Lemma tame_bind {A B} n (m : io A) (f : A -> io B) :
  tame n m -> (forall a, tame n (f a)) -> tame n (m ≫= f).
Proof.
  intros Hm Hf w Hw. destruct (Hm w Hw) as [H1 H2].
  unfold mbind, io_bind. destruct (m w) as [[a|e|] w']; simpl in *;
    [|done..].
  destruct (Hf a w') as [H3 H4]; [lia|]. split; [done | lia].
Qed.

Lemma tame_input n prompt : tame n (input prompt).
Proof.
  intros w _. rewrite input_eq. unfold consumed.
  destruct (stdin w); simpl; (split; [done | lia]).
Qed.

Lemma tame_input_bind {B} n prompt (f : string -> io B) :
  (forall a, tame n (f a)) -> tame (S n) (input prompt ≫= f).
Proof.
  intros Hf w Hw. unfold mbind, io_bind. rewrite input_eq.
  assert (Hc : stdin (consumed prompt w) = tail (stdin w)) by reflexivity.
  destruct (stdin w) as [|line rest] eqn:E.
  - cbn [fst snd]. rewrite Hc. split; [done | simpl; lia].
  - cbn [length] in Hw. change (tail (line :: rest)) with rest in Hc.
    destruct (Hf line (consumed prompt w)) as [H1 H2]; [rewrite Hc; lia|].
    rewrite Hc in H2. split; [done | cbn [length]; lia].
Qed.

Lemma tame_for_io {A S} n (xs : list A) (body : A -> S -> io S) s :
  (forall x s, tame n (body x s)) -> tame n (for_io xs body s).
Proof.
  intros Hb. revert s. induction xs as [|x xs IH]; intros s.
  - apply tame_ret.
  - apply tame_bind; [apply Hb | apply IH].
Qed.

Lemma tame_scan_file n file st : tame n (scan_file file st).
Proof.
  destruct st as [[found ub] cb]. unfold scan_file.
  destruct (endswith file.1 ".npy"); [|apply tame_ret].
  apply tame_bind; [apply tame_print|]. intros _.
  destruct (endswith file.1 "_usr.npy"); [apply tame_ret|].
  destruct (endswith file.1 "_sol.npy"); apply tame_ret.
Qed.

Lemma tame_load_from_file n : tame n load_from_file.
Proof.
  unfold load_from_file.
  apply tame_bind; [apply tame_input|]. intros fn.
  apply tame_bind.
  - case_decide; [|apply tame_ret]. cbv zeta.
    apply tame_bind; [apply tame_os_listdir|]. intros files.
    apply tame_bind; [apply tame_for_io; apply tame_scan_file|].
    intros [[found ub] cb].
    apply tame_bind; [|intros _; apply tame_ret].
    destruct (negb _); [apply tame_logging_warn | apply tame_ret].
  - intros [[ub|] [cb|]]; (apply tame_ret || apply tame_raise).
Qed.

Lemma tame_ask_again n action : tame n (ask_again n action).
Proof.
  revert action. induction n as [|n IH]; intros action.
  { intros w Hw. lia. }
  cbn [ask_again]. case_bool_decide; [apply tame_ret|].
  by apply tame_input_bind.
Qed.

Lemma tame_game_loop parse_int hints n user_board complete_board :
  tame n (game_loop parse_int hints n user_board complete_board).
Proof.
  revert user_board complete_board.
  induction n as [|n IH]; intros u c.
  { intros w Hw. lia. }
  rewrite game_loop_S. destruct (negb _); [|apply tame_ret].
  apply tame_input_bind. intros action.
  assert (Hup : forall A (m : io A), tame (S n) m -> tame n m).
  { intros A m Hm w Hw. apply Hm. lia. }
  apply tame_bind; [apply tame_ask_again|]. clear action. intros action.
  case_decide.
  { apply Hup, tame_input_bind. intros save_pth.
    apply tame_bind; [apply tame_np_save|]. intros _.
    apply tame_bind; [apply tame_np_save|]. intros _.
    apply tame_bind; [apply tame_print|]. intros _. apply IH. }
  case_decide.
  { apply tame_bind; [apply tame_load_from_file|]. intros [u' c']. apply IH. }
  case_decide.
  { apply tame_bind; [apply tame_input|]. intros reply.
    destruct (parse_reply parse_int reply) as [[[row col] val]|].
    2:{ apply tame_bind; [apply tame_print|]. intros _. apply IH. }
    apply tame_bind; [apply tame_lift|]. intros u1.
    apply tame_bind.
    2:{ intros u2. apply tame_bind; [apply tame_print|]. intros _. apply IH. }
    destruct hints; [|apply tame_ret].
    apply tame_bind; [apply tame_lift|]. intros legal.
    destruct (negb legal); [|apply tame_ret].
    apply tame_bind; [apply tame_input|]. intros override_reply.
    case_decide; [apply tame_lift | apply tame_ret]. }
  case_decide; [apply tame_ret | apply IH].
Qed.


Lemma makeBoard_fuel rollback_factor rng fuel board :
  makeBoard rollback_factor rng fuel = Ok (Some board) -> fuel <> 0%nat.
Proof. by intros H ->. Qed.

Lemma zero_cells_not_all board cells :
  length cells <> 0%nat -> ndarray_all (zero_cells board cells) = false.
Proof.
  destruct cells as [|[r c] cells]; [done|]. intros _.
  apply (ndarray_all_false _ (of_flat r c)). rewrite item_zero_cells.
  rewrite decide_True; [done|]. rewrite fmap_cons. apply elem_of_cons.
  by left.
Qed.


(** X12: how [game] opens, once [makeBoard] has returned.  Any error
    of the masker (a negative or oversized cell count, an infinite or
    NaN product, no room for the draws) ends the game after the three
    welcome lines, before any board or prompt.  A count of 0 hides
    nothing: both boards are shown and the game is won at once, with no
    input read.  A positive count that the masker accepts leaves at
    least one cell empty, so the boards disagree and the main loop asks
    for a command; at the end of the input that prompt raises
    [EOFError]. *)
Theorem game_opening
    (parse_int : string -> option Z) (max_rows : Z)
    (rng_board rng_mask : nat -> nat) (fuel : nat) (difficulty : float64)
    (hints : bool) (complete_board : ndarray) (w : world) :
  makeBoard 8 rng_board fuel = Ok (Some complete_board) ->
  match hide_portion_of_board max_rows rng_mask complete_board difficulty with
  | Raise e =>
      game parse_int max_rows rng_board rng_mask fuel difficulty hints w
      = (Raised (ModuleError e), printed welcome_lines w)
  | Ok user_board =>
      exists n,
        num_to_hide difficulty = Ok n
        /\ 0 <= n
        /\ user_board
           = zero_cells complete_board (randint_0_9 rng_mask (Z.to_nat n))
        /\ (n = 0 ->
            game parse_int max_rows rng_board rng_mask fuel difficulty hints w
            = (Returned tt,
               printed (welcome_lines
                        ++ [displayBoard complete_board;
                            displayBoard complete_board; congrats]) w))
        /\ (0 < n ->
            boards_agree user_board complete_board = false
            /\ (stdin w = [] ->
                game parse_int max_rows rng_board rng_mask fuel difficulty
                     hints w
                = (Raised EOFError,
                   consumed action_prompt
                     (printed (welcome_lines
                               ++ [displayBoard complete_board;
                                   displayBoard user_board]) w))))
  end.
Proof.
  intros Hmake.
  pose proof (makeBoard_fuel _ _ _ _ Hmake) as Hfuel.
  pose proof (full_board_all _
                (makeBoard_returns_full_board _ _ _ _ Hmake)) as Hall.
  assert (Hgame :
    game parse_int max_rows rng_board rng_mask fuel difficulty hints w
    = (user_board ←
         lift (hide_portion_of_board max_rows rng_mask complete_board
                 difficulty);
       _ ← print (displayBoard complete_board);
       _ ← print (displayBoard user_board);
       '(user_board, complete_board) ←
         game_loop parse_int hints fuel user_board complete_board;
       farewell user_board complete_board) (printed welcome_lines w)).
  { unfold game. rewrite Hmake, lift_Ok, io_bind_ret.
    rewrite !(io_bind_returned _ _ _ _ _ (print_eq _ _)).
    by rewrite !printed_printed. }
  rewrite Hgame. clear Hgame.
  destruct fuel as [|fuel]; [done|].
  destruct (hide_portion_of_board max_rows rng_mask complete_board difficulty)
    as [user_board|e] eqn:Hhide; [|done].
  destruct (hide_inv _ _ _ _ _ Hhide) as (n & Hn & [Hn0 _] & _ & Hub).
  exists n. split_and!; [done | done | done | |].
  - intros ->.
    change (zero_cells complete_board (randint_0_9 rng_mask (Z.to_nat 0)))
      with complete_board in Hub. subst user_board.
    rewrite lift_Ok, io_bind_ret.
    rewrite !(io_bind_returned _ _ _ _ _ (print_eq _ _)).
    erewrite io_bind_returned.
    2:{ rewrite game_loop_S. unfold boards_agree. rewrite eqb_reflx.
        reflexivity. }
    cbv beta iota. unfold farewell, boards_agree. rewrite eqb_reflx.
    rewrite print_eq. by rewrite !printed_printed.
  - intros Hpos.
    assert (Hagree : boards_agree user_board complete_board = false).
    { unfold boards_agree. rewrite Hall, Hub.
      rewrite zero_cells_not_all; [done|].
      rewrite randint_0_9_length. lia. }
    split; [done|]. intros Hin.
    rewrite lift_Ok, io_bind_ret.
    rewrite !(io_bind_returned _ _ _ _ _ (print_eq _ _)).
    rewrite !printed_printed.
    apply io_bind_raised. rewrite game_loop_S, Hagree. cbn [negb].
    apply io_bind_raised. by apply input_nil.
Qed.

Lemma game_opening_witness :
  game (fun _ => None) 81 lucky_rng (fun _ => 0%nat) 262 (Finite 1 (-6))
       false (console [])
  = (Raised EOFError,
     consumed action_prompt
       (printed (welcome_lines
                 ++ [displayBoard solved_board;
                     displayBoard (store solved_board (of_flat 0 0) 0)])
          (console []))).
Proof.
  pose proof (game_opening (fun _ => None) 81 lucky_rng (fun _ => 0%nat) 262
                (Finite 1 (-6)) false solved_board
                (console [])
                ltac:(by vm_compute)) as H.
  change (hide_portion_of_board 81 (fun _ => 0%nat) solved_board
            (Finite 1 (-6)))
    with (Ok (store solved_board (of_flat 0 0) 0)) in H.
  destruct H as (n & Hn & _ & _ & _ & Hpos).
  assert (n = 1) as -> by (vm_compute in Hn; congruence).
  apply Hpos; [lia | reflexivity].
Defined.

(** X13: a move outside the board ends the game.  [try] covers only the
    parsing of the reply, so for a well-formed reply whose row or column
    is not in 0..8 the [AssertionError] of [get_idx] leaves [game]'s
    loop, right after the two prompts and with nothing printed. *)
Theorem game_loop_out_of_range_move_raises
    (parse_int : string -> option Z) (hints : bool) (fuel : nat)
    (user_board complete_board : ndarray) (w : world)
    (reply : string) (rest : list string) (row col val : Z) :
  boards_agree user_board complete_board = false ->
  stdin w = "play"%string :: reply :: rest ->
  parse_reply parse_int reply = Some (row, col, val) ->
  ~ in_range row col ->
  game_loop parse_int hints (S fuel) user_board complete_board w
  = (Raised (ModuleError AssertionError),
     consumed play_prompt (consumed action_prompt w)).
Proof.
  intros Hagree Hin Hparse Hout.
  rewrite (game_loop_play _ _ _ _ _ _ _ _ Hagree Hin), Hparse.
  by rewrite (set_value_out_of_range _ _ _ _ Hout).
Qed.

Lemma game_loop_out_of_range_move_raises_witness :
  game_loop decimal false 1 zeros solved_board
    (console ["play"%string; "9,0,1"%string])
  = (Raised (ModuleError AssertionError),
     consumed play_prompt
       (consumed action_prompt
          (console ["play"%string; "9,0,1"%string]))).
Proof.
  apply (game_loop_out_of_range_move_raises decimal false 0 zeros solved_board
           (console ["play"%string; "9,0,1"%string])
           "9,0,1" [] 9 0 1).
  - by vm_compute.
  - reflexivity.
  - by vm_compute.
  - unfold in_range. lia.
Defined.

(** A non-zero integer is stored as a non-zero float. *)
Lemma float64_of_int_nonzero value v :
  float64_of_int value = Ok v -> value <> 0 -> v <> 0.
Proof.
  unfold float64_of_int, float64_round. intros Hconv Hnz.
  set (a := Z.abs value) in *.
  set (shift := Z.max 0 (Z.max (Z.log2 a - 52) (- 1074 - 0))) in *.
  assert (Ha : 0 < a) by (unfold a; lia).
  destruct (Z.log2_spec a Ha) as [Hlo _].
  assert (Hs : 0 <= shift) by lia.
  assert (Hpow : 2 ^ shift <= a).
  { destruct (decide (shift = 0)) as [->|?]; [simpl; lia|].
    transitivity (2 ^ Z.log2 a); [|done].
    apply Z.pow_le_mono_r; lia. }
  assert (Hk : 1 <= round_half_even a shift).
  { apply (round_half_even_bounds a shift 1); lia. }
  destruct (Z.eqb_spec (round_half_even a shift) 0) as [?|_]; [lia|].
  destruct (Z.leb_spec 1024 (Z.log2 (round_half_even a shift) + (0 + shift)));
    [done|].
  injection Hconv as <-.
  assert (0 < 2 ^ (0 + shift)) by (apply Z.pow_pos_nonneg; lia).
  assert (Z.sgn value <> 0) by lia.
  apply Z.neq_mul_0. split; [|lia]. apply Z.neq_mul_0. split; [done | lia].
Qed.

(** X14: the game is won by filling the board, not by solving it.  The
    loop test compares [user_board.all()] with [complete_board.all()],
    so, hints off, a move that puts any non-zero value within the float
    range into the last empty cell ends the loop and prints the
    congratulation, whatever the solution holds there; the board shown
    holds the float64 nearest to the value.  A value beyond the float
    range ends the game with [OverflowError]. *)
Theorem game_loop_win_ignores_solution
    (parse_int : string -> option Z) (fuel : nat)
    (user_board complete_board : ndarray) (w : world)
    (reply : string) (rest : list string) (row col val : Z) :
  ndarray_all complete_board = true ->
  stdin w = "play"%string :: reply :: rest ->
  parse_reply parse_int reply = Some (row, col, val) ->
  in_range row col ->
  item user_board (of_flat row col) = 0 ->
  (forall q, q <> of_flat row col -> item user_board q <> 0) ->
  val <> 0 ->
  match float64_of_int val with
  | Ok v =>
      (float_exact val -> v = val)
      /\ ('(user_board, complete_board) ←
           game_loop parse_int false (S (S fuel)) user_board complete_board;
         farewell user_board complete_board) w
        = (Returned tt,
           printed [displayBoard (store user_board (of_flat row col) v);
                    congrats]
             (consumed play_prompt (consumed action_prompt w)))
  | Raise e =>
      game_loop parse_int false (S (S fuel)) user_board complete_board w
      = (Raised (ModuleError OverflowError),
         consumed play_prompt (consumed action_prompt w))
  end.
Proof.
  intros Hc Hin Hparse Hrange Hzero Hothers Hval.
  assert (Hagree : boards_agree user_board complete_board = false).
  { unfold boards_agree. by rewrite Hc, (ndarray_all_false _ _ Hzero). }
  destruct (float64_of_int val) as [v|e] eqn:Hconv.
  2:{ rewrite (game_loop_play _ _ _ _ _ _ _ _ Hagree Hin), Hparse.
      rewrite (set_value_converts _ _ _ _ Hrange), Hconv.
      by rewrite (float64_of_int_error _ _ Hconv). }
  split.
  { intros Hex. rewrite (float64_of_int_exact _ Hex) in Hconv. congruence. }
  set (filled := store user_board (of_flat row col) v).
  assert (Hfilled : boards_agree filled complete_board = true).
  { unfold boards_agree. rewrite Hc.
    rewrite (proj2 (ndarray_all_true filled)); [done|].
    intros q. unfold filled. rewrite item_store. case_decide.
    - by apply (float64_of_int_nonzero val).
    - apply Hothers. congruence. }
  erewrite io_bind_returned.
  2:{ rewrite (game_loop_play _ _ _ _ _ _ _ _ Hagree Hin), Hparse.
      rewrite (set_value_converts _ _ _ _ Hrange), Hconv, bind_Ok.
      rewrite lift_Ok, !io_bind_ret.
      rewrite (io_bind_returned _ _ _ _ _ (print_eq _ _)).
      fold filled. rewrite game_loop_S, Hfilled. reflexivity. }
  cbv beta iota. unfold farewell. rewrite Hfilled, print_eq.
  by rewrite printed_printed.
Qed.

Lemma game_loop_win_ignores_solution_witness :
  (float_exact 7 -> 7 = 7)
  /\ ('(user_board, complete_board) ←
       game_loop decimal false 2 (store solved_board (of_flat 0 0) 0)
                 solved_board;
     farewell user_board complete_board)
      (console ["play"%string; "0,0,7"%string])
    = (Returned tt,
       printed [displayBoard
                  (store (store solved_board (of_flat 0 0) 0) (of_flat 0 0) 7);
                congrats]
         (consumed play_prompt
            (consumed action_prompt
               (console ["play"%string; "0,0,7"%string])))).
Proof.
  apply (game_loop_win_ignores_solution decimal 0
           (store solved_board (of_flat 0 0) 0) solved_board
           (console ["play"%string; "0,0,7"%string]) "0,0,7" [] 0 0 7).
  - by vm_compute.
  - reflexivity.
  - by vm_compute.
  - unfold in_range. lia.
  - reflexivity.
  - intros [[[[] []] []] []] Hq; first [by vm_compute | by destruct Hq].
  - lia.
Defined.

(** X15: the hint question.  With hints on, a move to an in-range cell
    is questioned whenever the value stored, the float64 of the value
    entered, is 0 (the undo value) or stands in another cell of the
    block, row or column.  An answer that lowers to [n] empties the
    cell, it does not restore what the cell held; any other answer
    keeps the value.  The board is then shown and the loop goes on. *)
Theorem game_loop_hint_declined_empties_cell
    (parse_int : string -> option Z) (fuel : nat)
    (user_board complete_board : ndarray) (w : world)
    (reply answer : string) (rest : list string) (row col val v : Z) :
  boards_agree user_board complete_board = false ->
  stdin w = "play"%string :: reply :: answer :: rest ->
  parse_reply parse_int reply = Some (row, col, val) ->
  in_range row col ->
  float64_of_int val = Ok v ->
  (v = 0
   \/ exists q, q <> of_flat row col /\ same_region4 (of_flat row col) q
                /\ item user_board q = v) ->
  let kept :=
    store user_board (of_flat row col)
          (if decide (py_lower answer = "n") then 0 else v) in
  game_loop parse_int true (S fuel) user_board complete_board w
  = game_loop parse_int true fuel kept complete_board
      (printed [displayBoard kept]
         (consumed override_prompt
            (consumed play_prompt (consumed action_prompt w)))).
Proof.
  intros Hagree Hin Hparse Hrange Hconv Hbad kept.
  rewrite (game_loop_play _ _ _ _ _ _ _ _ Hagree Hin), Hparse.
  rewrite (set_value_converts _ _ _ _ Hrange), Hconv, bind_Ok.
  rewrite lift_Ok, io_bind_ret.
  set (p := of_flat row col) in *.
  destruct (check_legal_in_range row col (store user_board p v) Hrange)
    as (legal & Hlegal & Hiff).
  fold p in Hiff.
  assert (legal = false) as ->.
  { apply not_true_iff_false. intros Ht. apply Hiff in Ht as [Hnz Hall].
    rewrite item_store_eq in Hnz, Hall.
    destruct Hbad as [?|(q & Hq & Hreg & Hval)]; [done|].
    apply (Hall q Hq Hreg). rewrite item_store, decide_False by congruence.
    done. }
  assert (Hin' : stdin (consumed play_prompt (consumed action_prompt w))
                 = answer :: rest)
    by (unfold consumed; simpl; by rewrite Hin).
  erewrite io_bind_returned.
  2:{ rewrite Hlegal, lift_Ok, io_bind_ret. cbn [negb].
      rewrite (io_bind_returned _ _ _ _ _ (input_cons override_prompt _ _ _ Hin')).
      instantiate (1 := consumed override_prompt
                          (consumed play_prompt (consumed action_prompt w))).
      instantiate (1 := kept). unfold kept.
      destruct (decide (py_lower answer = "n")); [|done].
      rewrite (set_value_zero _ _ _ Hrange), lift_Ok.
      fold p. by rewrite store_store. }
  by rewrite (io_bind_returned _ _ _ _ _ (print_eq _ _)).
Qed.

Lemma game_loop_hint_declined_empties_cell_witness :
  game_loop decimal true 1 (store solved_board (of_flat 0 0) 0) solved_board
    (console ["play"%string; "0,1,1"%string; "N"%string])
  = game_loop decimal true 0
      (store (store solved_board (of_flat 0 0) 0) (of_flat 0 1)
             (if decide (py_lower "N" = "n"%string) then 0 else 1))
      solved_board
      (printed [displayBoard
                  (store (store solved_board (of_flat 0 0) 0) (of_flat 0 1)
                         (if decide (py_lower "N" = "n"%string) then 0 else 1))]
         (consumed override_prompt
            (consumed play_prompt
               (consumed action_prompt
                  (console ["play"%string; "0,1,1"%string; "N"%string]))))).
Proof.
  apply (game_loop_hint_declined_empties_cell decimal 0
           (store solved_board (of_flat 0 0) 0) solved_board
           (console ["play"%string; "0,1,1"%string; "N"%string])
           "0,1,1" "N" [] 0 1 1 1).
  - by vm_compute.
  - reflexivity.
  - by vm_compute.
  - unfold in_range. lia.
  - reflexivity.
  - right. exists (of_flat 8 1). split_and!; [done | | by vm_compute].
    vm_compute. tauto.
Defined.

(** X16: the main loop of [game] ends on every finite input.  Every
    round reads at least one line, so run from a console with fewer
    lines than the fuel given, the loop returns or raises (at the
    latest the [EOFError] of a prompt at the end of the input), and it
    puts no line back. *)
Theorem game_loop_ends_on_finite_input
    (parse_int : string -> option Z) (hints : bool) (fuel : nat)
    (user_board complete_board : ndarray) (w : world) :
  (length (stdin w) < fuel)%nat ->
  exists end_world,
    (length (stdin end_world) <= length (stdin w))%nat
    /\ ((exists boards,
           game_loop parse_int hints fuel user_board complete_board w
           = (Returned boards, end_world))
        \/ (exists e,
              game_loop parse_int hints fuel user_board complete_board w
              = (Raised e, end_world))).
Proof.
  intros Hw.
  destruct (tame_game_loop parse_int hints fuel user_board complete_board w Hw)
    as [H1 H2].
  destruct (game_loop parse_int hints fuel user_board complete_board w)
    as [[boards|e|] w']; simpl in *; [| |done].
  - exists w'. split; [done|]. left. by exists boards.
  - exists w'. split; [done|]. right. by exists e.
Qed.

Lemma game_loop_ends_on_finite_input_witness :
  exists end_world,
    (length (stdin end_world)
     <= length (stdin (console ["exit"%string])))%nat
    /\ ((exists boards,
           game_loop decimal true 2 zeros solved_board
             (console ["exit"%string])
           = (Returned boards, end_world))
        \/ (exists e,
              game_loop decimal true 2 zeros solved_board
                (console ["exit"%string])
              = (Raised e, end_world))).
Proof.
  apply (game_loop_ends_on_finite_input decimal true 2 zeros solved_board
           (console ["exit"%string])).
  simpl. lia.
Defined.
